(** * Venue repository: serialisation helpers of the venues API

    A shallow embedding of [serialize], [deserialize], [deserializeImage],
    [getPriceClass], [getEntranceFeeRange] and [getCapacityRange], together
    with the part of the JavaScript runtime those functions rely on
    (truthiness, property access on plain data, numeric comparison,
    [Array.prototype.reduce] and [Array.prototype.map]). *)

From Stdlib Require Import Ascii String QArith Qminmax Lqa.
From stdpp Require Import gmap strings pretty list fin_maps sorting.

Set Warnings "-register-all".

(** ** Plain JavaScript data *)

(** Numbers are rationals, every finite double being one, or NaN: the code
    only compares numbers, tests them against zero and takes a maximum.
    Objects are finite maps from property names to values. *)
Inductive value : Type :=
  | VUndef
  | VNull
  | VBool (b : bool)
  | VNum (q : Q)
  | VNaN
  | VStr (s : string)
  | VArr (l : list value)
  | VObj (m : gmap string value).

Inductive error : Type :=
  | TypeError
  | HostError.

Inductive result (A : Type) : Type :=
  | Ok (a : A)
  | Throw (e : error).
Arguments Ok {A} a.
Arguments Throw {A} e.

(** [if (v)] *)
Definition truthy (v : value) : bool :=
  match v with
  | VUndef | VNull | VNaN => false
  | VBool b => b
  | VNum q => negb (Qeq_bool q 0)
  | VStr s => negb (String.eqb s "")
  | VArr _ | VObj _ => true
  end.

(** [o.k] where [o] is known not to be [undefined] or [null]: a property
    that is not there reads as [undefined]; plain arrays and primitives
    carry none of the names this module reads. *)
Definition get (o : value) (k : string) : value :=
  match o with
  | VObj m => default VUndef (m !! k)
  | _ => VUndef
  end.

(** The property [k] that [o] itself holds, if any. *)
Definition own (o : value) (k : string) : option value :=
  match o with
  | VObj m => m !! k
  | _ => None
  end.

(** [undefined] or [null] *)
Definition nullish (v : value) : bool :=
  match v with
  | VUndef | VNull => true
  | _ => false
  end.

(** [o.k] in general: reading a property of [undefined] or [null] throws. *)
Definition member (o : value) (k : string) : result value :=
  match o with
  | VUndef | VNull => Throw TypeError
  | _ => Ok (get o k)
  end.

(** [o.k = v] on the value [o] refers to.  The module is not in strict
    mode: writing a property of a primitive is silently dropped.  Named
    properties of arrays are not tracked. *)
Definition set (o : value) (k : string) (v : value) : value :=
  match o with
  | VObj m => VObj (<[k := v]> m)
  | _ => o
  end.

(** [delete o.k] *)
Definition del (o : value) (k : string) : value :=
  match o with
  | VObj m => VObj (delete k m)
  | _ => o
  end.

(** [a[i]] for a numeric index literal [i]. *)
Definition item (a : value) (i : nat) : result value :=
  match a with
  | VUndef | VNull => Throw TypeError
  | VArr l => Ok (default VUndef (l !! i))
  | VStr s =>
      Ok (match String.get i s with
          | Some c => VStr (String c EmptyString)
          | None => VUndef
          end)
  | VObj m => Ok (default VUndef (m !! pretty i))
  | VBool _ | VNum _ | VNaN => Ok VUndef
  end.

(** ** Collaborators outside this module *)

Record PriceClassRanges : Type := {
  coke : list Q;
  beer : list Q;
}.

(** Modelled from the spec: the city configuration of shared/cityConfig,
    which is not among the sources: a currency code, the price-class lower
    bounds of each beverage and the entrance-fee lower bounds. *)
Record CityConf : Type := {
  currency : value;
  priceClassRanges : PriceClassRanges;
  entranceFeeRanges : list Q;
}.

(** Modelled from the spec: what this module imports.  [cityConfig_get] is
    the lookup of shared/cityConfig ([Ok None] when it returns [undefined],
    [Throw] when it fails); [VENUE_CAPACITY_RANGES] is the table of
    shared/constants; [unidecode_other] is what the unidecode package does
    with an argument that is not an all-ASCII string; [ToNumber_other] is
    the runtime's numeric coercion of strings, arrays and objects. *)
Record host : Type := {
  cityConfig_get : value → value → result (option CityConf);
  VENUE_CAPACITY_RANGES : list Q;
  unidecode_other : value → result value;
  ToNumber_other : value → option Q;
}.

(** ** Numeric comparison *)

(** [ToNumber]; [None] is NaN. *)
Definition ToNumber (h : host) (v : value) : option Q :=
  match v with
  | VNum q => Some q
  | VUndef | VNaN => None
  | VNull => Some 0%Q
  | VBool b => Some (if b then 1%Q else 0%Q)
  | VStr _ | VArr _ | VObj _ => ToNumber_other h v
  end.

Definition Qlt_bool (x y : Q) : bool :=
  (Qnum x * QDen y <? Qnum y * QDen x)%Z.

(** [v > bound] against a number. *)
Definition js_gt (h : host) (v : value) (bound : Q) : bool :=
  match ToNumber h v with
  | Some x => Qlt_bool bound x
  | None => false
  end.

(** [v <= bound] against a number. *)
Definition js_le (h : host) (v : value) (bound : Q) : bool :=
  match ToNumber h v with
  | Some x => Qle_bool x bound
  | None => false
  end.

(** ** Array.prototype.reduce and map *)

(** [l.reduce(f, init)]: the callback receives the accumulator, the element
    and its index. *)
Fixpoint reduce_from {A B : Type} (f : B → A → nat → B)
    (index : nat) (l : list A) (acc : B) : B :=
  match l with
  | [] => acc
  | x :: rest => reduce_from f (S index) rest (f acc x index)
  end.

Definition reduce {A B : Type} (f : B → A → nat → B) (l : list A) (init : B) : B :=
  reduce_from f 0 l init.

(** ** Range bucketing *)

(** The callback that [getEntranceFeeRange] and [getCapacityRange] both
    pass to [reduce], for the boundaries [ranges] and the value [v]. *)
Definition range_step (h : host) (ranges : list Q) (v : value)
    (range : value) (lowerBound : Q) (index : nat) : value :=
  if truthy range then range
  else
    match ranges !! (index + 1)%nat with
    | None => VNum lowerBound
    | Some upperBound =>
        if negb (truthy (VNum upperBound)) then VNum lowerBound
        else if js_gt h v lowerBound && js_le h v upperBound
             then VArr [VNum lowerBound; VNum upperBound]
             else VUndef
    end.

(** Boundaries in strictly ascending order. *)
Fixpoint ascending (b : list Q) : bool :=
  match b with
  | x :: (y :: _) as rest => Qlt_bool x y && ascending rest
  | _ => true
  end.

Definition getEntranceFeeRange (h : host) (venue : value) (cityConf : CityConf) : value :=
  reduce
    (fun range lowerBound index =>
       if truthy range then range
       else
         match entranceFeeRanges cityConf !! (index + 1)%nat with
         | None => VNum lowerBound
         | Some upperBound =>
             if negb (truthy (VNum upperBound)) then VNum lowerBound
             else if js_gt h (get (get venue "fees") "entrance") lowerBound
                     && js_le h (get (get venue "fees") "entrance") upperBound
                  then VArr [VNum lowerBound; VNum upperBound]
                  else VUndef
         end)
    (entranceFeeRanges cityConf) VNull.

Definition getCapacityRange (h : host) (venue : value) : value :=
  reduce
    (fun range lowerBound index =>
       if truthy range then range
       else
         match VENUE_CAPACITY_RANGES h !! (index + 1)%nat with
         | None => VNum lowerBound
         | Some upperBound =>
             if negb (truthy (VNum upperBound)) then VNum lowerBound
             else if js_gt h (get venue "capacity") lowerBound
                     && js_le h (get venue "capacity") upperBound
                  then VArr [VNum lowerBound; VNum upperBound]
                  else VUndef
         end)
    (VENUE_CAPACITY_RANGES h) VNull.

(** ** Price class *)

(** [Math.max(a, b)] *)
Definition Math_max (h : host) (a b : value) : value :=
  match ToNumber h a, ToNumber h b with
  | Some x, Some y => VNum (Qmax x y)
  | _, _ => VNaN
  end.

(** The arrow function that [getClassForRanges] passes to [reduce]. *)
Definition class_step (h : host) (ranges : list Q) (price : value)
    (range : value) (lowerBound : Q) (index : nat) : value :=
  if truthy range then range
  else
    match ranges !! (index + 1)%nat with
    | None => VNum (inject_Z (Z.of_nat (index + 1)))
    | Some upperBound =>
        if negb (truthy (VNum upperBound))
           || (js_gt h price lowerBound && js_le h price upperBound)
        then VNum (inject_Z (Z.of_nat (index + 1)))
        else VUndef
    end.

Definition getClassForRanges (h : host) (ranges : list Q) (price : value) : value :=
  reduce (class_step h ranges price) ranges VNull.

Definition getPriceClass (h : host) (venue : value) (cityConf : CityConf) : value :=
  if negb (truthy (get (get venue "prices") "coke"))
     && negb (truthy (get (get venue "prices") "beer"))
  then VNull
  else
    let cokeClass :=
      getClassForRanges h (coke (priceClassRanges cityConf))
        (get (get venue "prices") "coke") in
    let beerClass :=
      getClassForRanges h (beer (priceClassRanges cityConf))
        (get (get venue "prices") "beer") in
    Math_max h cokeClass beerClass.

(** ** Text normalisation *)

Definition is_ascii (c : ascii) : bool := (N_of_ascii c <? 128)%N.

(** [unidecode(str)]: the package replaces the characters outside ASCII and
    leaves the others as they are. *)
Definition unidecode (h : host) (str : value) : result value :=
  match str with
  | VStr s =>
      if forallb is_ascii (list_ascii_of_string s) then Ok (VStr s)
      else unidecode_other h str
  | _ => unidecode_other h str
  end.

(** ** Statements on the object a variable refers to *)

(** A computation on the object that [data], [venue] or [venueImage] refers
    to: it may update the object in place and it may throw. *)
Definition M (A : Type) : Type := value → value * result A.

Definition ret {A : Type} (a : A) : M A := fun o => (o, Ok a).

Definition bind {A B : Type} (m : M A) (f : A → M B) : M B :=
  fun o =>
    match m o with
    | (o', Ok a) => f a o'
    | (o', Throw e) => (o', Throw e)
    end.

Definition lift {A : Type} (r : result A) : M A := fun o => (o, r).

Notation "'let!' x ':=' c 'in' k" := (bind c (fun x => k))
  (at level 10, x name, c at level 100, k at level 200, only parsing).
Notation "c '>>' k" := (bind c (fun _ => k))
  (at level 100, k at level 200, right associativity, only parsing).

(** the object itself, as in passing [venue] to a helper *)
Definition this : M value := fun o => (o, Ok o).

(** [x.k] *)
Definition read (k : string) : M value := fun o => (o, member o k).

(** [x.k = v] *)
Definition write (k : string) (v : value) : M unit :=
  fun o =>
    match o with
    | VUndef | VNull => (o, Throw TypeError)
    | _ => (set o k v, Ok tt)
    end.

(** [delete x.k] *)
Definition remove (k : string) : M unit :=
  fun o =>
    match o with
    | VUndef | VNull => (o, Throw TypeError)
    | _ => (del o k, Ok tt)
    end.

(** [x.k1.k2 = v]: the nested object is part of [x]. *)
Definition write_in (k1 k2 : string) (v : value) : M unit :=
  fun o =>
    match member o k1 with
    | Throw e => (o, Throw e)
    | Ok VUndef | Ok VNull => (o, Throw TypeError)
    | Ok inner => (set o k1 (set inner k2 v), Ok tt)
    end.

(** [_.cloneDeep(v)]: a copy that shares nothing with [v]; as a tree of
    plain data it has the contents of [v]. *)
Definition cloneDeep (v : value) : value := v.

(** [a.map(f)], stopping at the first element on which [f] throws. *)
Fixpoint map_elements (f : value → result value) (l : list value) : result (list value) :=
  match l with
  | [] => Ok []
  | x :: rest =>
      match f x with
      | Throw e => Throw e
      | Ok y =>
          match map_elements f rest with
          | Throw e => Throw e
          | Ok ys => Ok (y :: ys)
          end
      end
  end.

(** Only arrays have [map]; plain data holds no function to call. *)
Definition array_map (f : value → result value) (a : value) : result value :=
  match a with
  | VArr l =>
      match map_elements f l with
      | Ok l' => Ok (VArr l')
      | Throw e => Throw e
      end
  | _ => Throw TypeError
  end.

(** ** deserializeImage *)

(** The statements of [deserializeImage] after the snapshot. *)
Definition deserializeImage_steps : M unit :=
  let! _id := read "_id" in
  write "id" _id >>
  remove "_id".

(** [deserializeImage] on an image held in plain data.  Plain data holds no
    method: a truthy [toObject] property cannot be called. *)
Definition deserializeImage (venueImage : value) : result value :=
  match member venueImage "toObject" with
  | Throw e => Throw e
  | Ok toObject =>
      if truthy toObject then Throw TypeError
      else
        match deserializeImage_steps (cloneDeep venueImage) with
        | (venueImage', Ok _) => Ok venueImage'
        | (_, Throw e) => Throw e
        end
  end.

(** ** deserialize *)

(** The statements of [deserialize] that follow the snapshot, up to the
    decoding of the geo point; the object is the snapshot. *)
Definition reshape : M unit :=
  let! _id := read "_id" in
  write "id" _id >>
  remove "_id" >>
  remove "sourceId" >>
  remove "queryText" >>
  let! images := read "images" in
  (if truthy images then
     let! mapped := lift (array_map deserializeImage images) in
     write "images" mapped
   else ret tt) >>
  let! location := read "location" in
  let! coordinates := lift (member location "coordinates") in
  if truthy coordinates then
    let! inner := lift (member coordinates "coordinates") in
    let! longitude := lift (item inner 0) in
    let! latitude := lift (item inner 1) in
    write_in "location" "coordinates"
      (VObj {[ "longitude" := longitude; "latitude" := latitude ]})
  else ret tt.

(** The statements under "Set computed fields"; [cityConf] is [None] when
    the lookup returned [undefined]. *)
Definition set_computed_fields (h : host) (cityConf : option CityConf) : M unit :=
  let! capacity := read "capacity" in
  (if truthy capacity then
     let! venue := this in
     write "capacityRange" (getCapacityRange h venue)
   else ret tt) >>
  let! fees := read "fees" in
  if truthy fees then
    match cityConf with
    | None => lift (Throw TypeError)
    | Some conf =>
        write "currency" (currency conf) >>
        let! fees := read "fees" in
        let! entrance := lift (member fees "entrance") in
        if truthy entrance then
          let! venue := this in
          write "entranceFeeRange" (getEntranceFeeRange h venue conf)
        else ret tt
    end
  else ret tt.

(** The statements of [deserialize] after the snapshot. *)
Definition deserialize_steps (h : host) : M unit :=
  reshape >>
  let! location := read "location" in
  let! country := lift (member location "country") in
  let! city := lift (member location "city") in
  let! cityConf := lift (cityConfig_get h country city) in
  set_computed_fields h cityConf.

(** ** serialize *)

(** The statements of [serialize]; the object is the caller's [data]. *)
Definition serialize_steps (h : host) : M unit :=
  let! id := read "id" in
  (if truthy id then
     write "_id" id >>
     remove "id"
   else ret tt) >>
  let! location := read "location" in
  let! cityConf :=
    (if truthy location
        && truthy (get location "country")
        && truthy (get location "city")
     then lift (cityConfig_get h (get location "country") (get location "city"))
     else ret None) in
  let! prices := read "prices" in
  (if truthy prices then
     match cityConf with
     | Some conf =>
         let! data := this in
         write "priceClass" (getPriceClass h data conf)
     | None => ret tt
     end
   else ret tt) >>
  let! location := read "location" in
  (if truthy location && truthy (get location "coordinates") then
     write_in "location" "coordinates"
       (VObj {[ "type" := VStr "Point";
                "coordinates" :=
                  VArr [get (get location "coordinates") "longitude";
                        get (get location "coordinates") "latitude"] ]})
   else ret tt) >>
  let! queryText := read "queryText" in
  if truthy queryText then ret tt
  else
    let! name := read "name" in
    let! ascii_name := lift (unidecode h name) in
    write "queryText" ascii_name.

(** The storage form of the geo point [coordinates], as [serialize] writes
    it: [{type: 'Point', coordinates: [longitude, latitude]}]. *)
Definition point (coordinates : value) : value :=
  VObj {[ "type" := VStr "Point";
          "coordinates" := VArr [get coordinates "longitude";
                                 get coordinates "latitude"] ]}.

(** The client form of a geo point, as [deserialize] writes it:
    [{longitude, latitude}]. *)
Definition labelled (longitude latitude : value) : value :=
  VObj {[ "longitude" := longitude; "latitude" := latitude ]}.

(** ** The store: objects the caller and the module share *)

(** A cell holds one object: plain data, or a live document of the store,
    whose [toObject] method returns a plain copy of its contents. *)
Inductive cell : Type :=
  | Plain (o : value)
  | Live (o : value).

Definition contents (c : cell) : value :=
  match c with
  | Plain o | Live o => o
  end.

Definition with_contents (c : cell) (o : value) : cell :=
  match c with
  | Plain _ => Plain o
  | Live _ => Live o
  end.

(** Arguments and results are references: indices of cells. *)
Abbreviation store := (list cell).

Definition deref (s : store) (r : nat) : value :=
  match s !! r with
  | Some c => contents c
  | None => VUndef
  end.

(** [serialize(data)]: works on the caller's object and returns it. *)
Definition serialize (h : host) (data : nat) (s : store) : store * result nat :=
  match serialize_steps h (deref s data) with
  | (o, Ok _) => (alter (fun c => with_contents c o) data s, Ok data)
  | (o, Throw e) => (alter (fun c => with_contents c o) data s, Throw e)
  end.

(** The first statement of [deserialize]: [venue.toObject()] when there is
    such a property, a deep copy otherwise. *)
Definition snapshot (s : store) (venue : nat) : result value :=
  match s !! venue with
  | Some (Live o) => Ok o
  | Some (Plain o) =>
      match member o "toObject" with
      | Throw e => Throw e
      | Ok toObject =>
          if truthy toObject then Throw TypeError else Ok (cloneDeep o)
      end
  | None => Throw TypeError
  end.

(** [deserialize(venue)]: works on a new object and returns it. *)
Definition deserialize (h : host) (venue : nat) (s : store) : store * result nat :=
  match snapshot s venue with
  | Throw e => (s, Throw e)
  | Ok copy =>
      match deserialize_steps h copy with
      | (o, Ok _) => (s ++ [Plain o], Ok (length s))
      | (o, Throw e) => (s ++ [Plain o], Throw e)
      end
  end.

(** ** What a computation leaves alone *)

(** [touches K c]: whatever its outcome, [c] changes no property of the
    object outside [K]. *)
Definition touches {A : Type} (K : list string) (c : M A) : Prop :=
  ∀ o k, k ∉ K → own (c o).1 k = own o k.


(** ** Inputs the functions accept *)

Definition is_ok {A : Type} (r : result A) : bool :=
  match r with
  | Ok _ => true
  | Throw _ => false
  end.

(** The payload has a [queryText], or a [name] that [unidecode] takes. *)
Definition name_normalises (h : host) (data : value) : bool :=
  truthy (get data "queryText") || is_ok (unidecode h (get data "name")).

(** The lookup that [serialize] makes, if it makes one, does not fail. *)
Definition lookup_succeeds (h : host) (data : value) : bool :=
  negb (truthy (get data "location")
        && truthy (get (get data "location") "country")
        && truthy (get (get data "location") "city"))
  || is_ok (cityConfig_get h (get (get data "location") "country")
              (get (get data "location") "city")).

(** The document has no images, or an array of images that
    [deserializeImage] takes. *)
Definition images_deserialisable (venue : value) : bool :=
  negb (truthy (get venue "images"))
  || is_ok (array_map deserializeImage (get venue "images")).

(** The geo point of the location, if there is one, has coordinates. *)
Definition point_stored (location : value) : bool :=
  negb (truthy (get location "coordinates"))
  || negb (nullish (get (get location "coordinates") "coordinates")).

(** The document has no fees, or its city configuration was found. *)
Definition fees_resolved (venue : value) (cityConf : option CityConf) : bool :=
  negb (truthy (get venue "fees")) || bool_decide (is_Some cityConf).

(** ** The price class in the words of the specification *)

(** The first interval [(b[i], b[i+1]]] that holds the price [p], counted
    from 0. *)
Fixpoint first_interval (b : list Q) (p : Q) : option nat :=
  match b with
  | lo :: (hi :: _) as rest =>
      if Qlt_bool lo p && Qle_bool p hi then Some 0%nat
      else S <$> first_interval rest p
  | _ => None
  end.

(** The class index of a category, counted from 1: that of the first
    interval with [lower < price <= upper], the last index when there is no
    such interval. *)
Definition class_index (b : list Q) (p : Q) : nat :=
  match first_interval b p with
  | Some i => S i
  | None => length b
  end.

(** No boundary after the first is zero. *)
Definition later_nonzero (b : list Q) : bool :=
  forallb (fun u => negb (Qeq_bool u 0)) (tail b).

(** ** An example host *)

Definition amsterdam : CityConf := {|
  currency := VStr "EUR";
  priceClassRanges := {| coke := [0; 2; 3; 4]%Q; beer := [0; 3; 5]%Q |};
  entranceFeeRanges := [0; 5; 10; 20]%Q;
|}.

Definition example_host : host := {|
  cityConfig_get country city :=
    match country, city with
    | VStr c, VStr t =>
        if String.eqb c "NL" && String.eqb t "Amsterdam"
        then Ok (Some amsterdam) else Throw HostError
    | _, _ => Throw HostError
    end;
  VENUE_CAPACITY_RANGES := [0; 50; 100]%Q;
  unidecode_other v :=
    match v with
    | VStr s => Ok (VStr (string_of_list_ascii (filter is_ascii (list_ascii_of_string s))))
    | _ => Throw TypeError
    end;
  ToNumber_other _ := None;
|}.

(** Example venues. *)
Definition venue_name_only : value := VObj {[ "name" := VStr "X" ]}.

Definition venue_amsterdam : value :=
  VObj {[ "name" := VStr "X";
          "location" := VObj {[ "country" := VStr "NL";
                                "city" := VStr "Amsterdam" ]} ]}.


Definition venue_utrecht : value :=
  VObj {[ "name" := VStr "X";
          "location" := VObj {[ "country" := VStr "NL";
                                "city" := VStr "Utrecht" ]} ]}.

Definition venue_with_point : value :=
  VObj {[ "name" := VStr "X";
          "location" := VObj {[ "country" := VStr "NL";
                                "city" := VStr "Amsterdam";
                                "coordinates" := labelled (VNum 10) (VNum 55) ]} ]}.

Definition venue_stored_point : value :=
  VObj {[ "name" := VStr "X";
          "location" := VObj {[ "country" := VStr "NL";
                                "city" := VStr "Amsterdam";
                                "coordinates" :=
                                  VObj {[ "type" := VStr "Point";
                                          "coordinates" := VArr [VNum 10; VNum 55] ]} ]} ]}.

Definition venue_full : value :=
  VObj {[ "_id" := VStr "v1";
          "sourceId" := VStr "s1";
          "queryText" := VStr "Cafe";
          "name" := VStr "Cafe";
          "capacity" := VNum 75;
          "fees" := VObj {[ "entrance" := VNum 10; "coatCheck" := VNum 2 ]};
          "images" := VArr [VObj {[ "_id" := VStr "i1"; "mime" := VStr "image/png" ]}];
          "location" := VObj {[ "country" := VStr "NL";
                                "city" := VStr "Amsterdam";
                                "coordinates" := point (labelled (VNum 10) (VNum 55)) ]} ]}.

(** ** What the bucketers may return *)


(** ** The listing route *)

(** [results.map(venueRepository.deserialize)] of [GET /] in
    venueRouter.js: the documents found are deserialised from left to right,
    each into a new object, and the first error ends the request. *)
Fixpoint deserialize_all (h : host) (results : list nat) (s : store)
  : store * result (list nat) :=
  match results with
  | [] => (s, Ok [])
  | venue :: rest =>
      match deserialize h venue s with
      | (s1, Throw e) => (s1, Throw e)
      | (s1, Ok view) =>
          match deserialize_all h rest s1 with
          | (s2, Throw e) => (s2, Throw e)
          | (s2, Ok views) => (s2, Ok (view :: views))
          end
      end
  end.

(** ** The dates of a Facebook event *)

(** [PUT /:venueId/facebook-events] in venueRouter.js merges the dates of
    an event it already has with the dates of the update.  The dates are
    objects, here the maps of their properties; a date that is not an object
    is outside this model.  [time] stands for [new Date(x).getTime()];
    [None] is NaN, the time of an invalid date. *)

(** [(a, b) => new Date(a.from).getTime() === new Date(b.from).getTime()];
    NaN is not equal to itself. *)
Definition datesEqual (time : value → option Z) (a b : gmap string value) : bool :=
  match time (get (VObj a) "from"), time (get (VObj b) "from") with
  | Some x, Some y => (x =? y)%Z
  | _, _ => false
  end.

(** lodash's [_.find(collection, predicate)] on an array. *)
Definition lodash_find {A : Type} (collection : list A) (predicate : A → bool)
  : option A :=
  List.find predicate collection.

(** Whether what [_.find] returned is truthy, the elements being objects. *)
Definition found {A : Type} (x : option A) : bool :=
  match x with
  | Some _ => true
  | None => false
  end.

(** [(a, b) => new Date(a.from) - new Date(b.from)]; [None] is NaN. *)
Definition compare_dates (time : value → option Z) (a b : gmap string value)
  : option Z :=
  match time (get (VObj a) "from"), time (get (VObj b) "from") with
  | Some x, Some y => Some (x - y)%Z
  | _, _ => None
  end.

(** [a.sort(comparefn)]: the sort is stable (ECMAScript 2019), and a
    comparison that gives NaN counts as 0.  With a consistent comparator this fixes the result.
    With an inconsistent one, as invalid dates make it, the language leaves
    the order to the implementation, and this definition gives one
    permutation of the elements. *)
Fixpoint insert_sorted {A : Type} (comparefn : A → A → option Z) (x : A) (l : list A)
  : list A :=
  match l with
  | [] => [x]
  | y :: rest =>
      match comparefn x y with
      | Some v => if (0 <? v)%Z then y :: insert_sorted comparefn x rest else x :: l
      | None => x :: l
      end
  end.

Definition array_sort {A : Type} (comparefn : A → A → option Z) (l : list A) : list A :=
  foldr (insert_sorted comparefn) [] l.

(** The statements between the lookup of the existing event and the test
    of [datesChanged]: the dates to store, and whether [datesChanged] is
    truthy.  [existingEvent] is [None] when the lookup found no event;
    otherwise it holds the dates of the event found.  [toObject] is taken to
    keep the [from] of a date, so that one list stands for
    [existingEvent.dates] and for the plain copies of its elements. *)
Definition facebook_event_dates (time : value → option Z)
    (existingEvent : option (list (gmap string value)))
    (dates : list (gmap string value))
  : list (gmap string value) * bool :=
  match existingEvent with
  | None => (dates, false)
  | Some existing_dates =>
      let existingDatesNotInUpdate :=
        List.filter
          (fun existingDate =>
             negb (found (lodash_find dates (fun date => datesEqual time date existingDate))))
          existing_dates in
      let datesChanged :=
        lodash_find dates
          (fun date =>
             negb (found (lodash_find existing_dates
                            (fun existingDate => datesEqual time existingDate date)))) in
      (array_sort (compare_dates time) (existingDatesNotInUpdate ++ dates),
       found datesChanged)
  end.

(** The date has a valid [from]. *)
Definition valid_date (time : value → option Z) (d : gmap string value) : bool :=
  found (time (get (VObj d) "from")).

(** An example [time]: whole numbers are times, anything else is invalid. *)
Definition example_time (v : value) : option Z :=
  match v with
  | VNum q => if (Zpos (Qden q) =? 1)%Z then Some (Qnum q) else None
  | _ => None
  end.

Definition date_at (t : Q) (label : string) : gmap string value :=
  {[ "from" := VNum t; "label" := VStr label ]}.


(** The time of a valid date. *)
Definition date_time (time : value → option Z) (d : gmap string value) : Z :=
  default 0%Z (time (get (VObj d) "from")).

(** ** Further examples *)

Definition image_png : value :=
  VObj {[ "_id" := VStr "i1"; "mime" := VStr "image/png" ]}.

(** A host whose lookup returns [undefined] for every city. *)
Definition host_without_cities : host := {|
  cityConfig_get _ _ := Ok None;
  VENUE_CAPACITY_RANGES := [0; 50; 100]%Q;
  unidecode_other := unidecode_other example_host;
  ToNumber_other _ := None;
|}.

Definition venue_identified : value :=
  VObj {[ "_id" := VStr "v1";
          "name" := VStr "Cafe";
          "images" := VArr [VObj {[ "_id" := VStr "i1" ]}];
          "location" := VObj {[ "country" := VStr "NL";
                                "city" := VStr "Amsterdam" ]} ]}.

(** A payload of a client, for a city the example host does not know. *)
Definition venue_from_client : value :=
  VObj {[ "id" := VStr "v1";
          "name" := VStr "Cafe";
          "location" := VObj {[ "country" := VStr "NL";
                                "city" := VStr "Utrecht" ]} ]}.

Definition venue_with_query : value :=
  VObj {[ "name" := VStr "Cafe"; "queryText" := VStr "koffie" ]}.

(** Prices and a price class of the client's, but no city. *)
Definition venue_without_city : value :=
  VObj {[ "name" := VStr "Cafe";
          "prices" := VObj {[ "coke" := VNum 2; "beer" := VNum 3 ]};
          "priceClass" := VNum 9;
          "location" := VObj {[ "country" := VStr "NL" ]} ]}.

(** * Properties *)

(** ** Running the functions *)

(** A live document with every kind of field: the view has [id] for
    [_id], no [sourceId] or [queryText], the image identifier renamed, the
    geo point labelled and the three computed fields. *)
Example deserialize_full_document :
  deserialize example_host 0 [Live venue_full]
  = ([Live venue_full;
      Plain (VObj {[ "id" := VStr "v1";
                     "name" := VStr "Cafe";
                     "capacity" := VNum 75;
                     "capacityRange" := VArr [VNum 50; VNum 100];
                     "fees" := VObj {[ "entrance" := VNum 10; "coatCheck" := VNum 2 ]};
                     "currency" := VStr "EUR";
                     "entranceFeeRange" := VArr [VNum 5; VNum 10];
                     "images" := VArr [VObj {[ "id" := VStr "i1"; "mime" := VStr "image/png" ]}];
                     "location" := VObj {[ "country" := VStr "NL";
                                           "city" := VStr "Amsterdam";
                                           "coordinates" := labelled (VNum 10) (VNum 55) ]} ]})],
     Ok 1%nat).
Proof. vm_compute. reflexivity. Qed.

(** Boundaries [0, 50, 100]: 150 is above all of them and gets 100 alone;
    50 is the upper boundary of its bucket. *)
Example getCapacityRange_above_all :
  getCapacityRange example_host (VObj {[ "capacity" := VNum 150 ]}) = VNum 100.
Proof. reflexivity. Qed.

Example getCapacityRange_on_boundary :
  getCapacityRange example_host (VObj {[ "capacity" := VNum 50 ]})
  = VArr [VNum 0; VNum 50].
Proof. reflexivity. Qed.

Example serialize_renames_id h :
  serialize h 0 [Plain (VObj {[ "id" := VStr "v1"; "name" := VStr "Cafe" ]})]
  = ([Plain (VObj {[ "_id" := VStr "v1"; "name" := VStr "Cafe";
                     "queryText" := VStr "Cafe" ]})], Ok 0%nat).
Proof. vm_compute. reflexivity. Qed.

(** Without a name there is nothing for [unidecode] to work on. *)
Example serialize_without_name :
  (serialize example_host 0 [Plain (VObj {[ "capacity" := VNum 75 ]})]).2
  = Throw TypeError.
Proof. reflexivity. Qed.

(** The geo point of a payload comes back from the round trip as it was. *)
Example geo_point_round_trip :
  get (get (deref (deserialize example_host 0
                     (serialize example_host 0 [Plain venue_with_point]).1).1 1)
         "location") "coordinates"
  = labelled (VNum 10) (VNum 55).
Proof. reflexivity. Qed.

Example deserialize_zero_capacity :
  own (deref (deserialize example_host 0
                [Plain (VObj {[ "capacity" := VNum 0;
                                "location" := VObj {[ "country" := VStr "NL";
                                                      "city" := VStr "Amsterdam" ]} ]})]).1 1)
    "capacityRange" = None.
Proof. reflexivity. Qed.

(** ** Numbers and truthiness *)

Lemma Qlt_bool_iff (x y : Q) : Qlt_bool x y = true ↔ (x < y)%Q.
Proof. unfold Qlt_bool, Qlt. apply Z.ltb_lt. Qed.

Lemma truthy_num (q : Q) : truthy (VNum q) = true ↔ ¬ (q == 0)%Q.
Proof.
  simpl. rewrite negb_true_iff. split.
  - intros E Hq. apply Qeq_bool_iff in Hq. congruence.
  - intros Hq. destruct (Qeq_bool q 0) eqn:E; [|done].
    apply Qeq_bool_iff in E. contradiction.
Qed.

Lemma js_gt_num h (v bound : Q) : js_gt h (VNum v) bound = true ↔ (bound < v)%Q.
Proof. apply Qlt_bool_iff. Qed.

Lemma js_le_num h (v bound : Q) : js_le h (VNum v) bound = true ↔ (v <= bound)%Q.
Proof. apply Qle_bool_iff. Qed.

(** ** reduce *)

Section Reduce.
Context {A B : Type} (f : B → A → nat → B).

Lemma reduce_from_app k l1 l2 acc :
  reduce_from f k (l1 ++ l2) acc
  = reduce_from f (k + length l1) l2 (reduce_from f k l1 acc).
Proof.
  revert k acc. induction l1 as [|x l1 IH]; intros k acc; simpl.
  - by rewrite Nat.add_0_r.
  - rewrite IH. f_equal. lia.
Qed.

Lemma reduce_from_settled k l acc :
  (∀ x i, f acc x i = acc) → reduce_from f k l acc = acc.
Proof.
  intros Hfix. revert k. induction l as [|x l IH]; intros k; simpl; [done|].
  by rewrite Hfix.
Qed.

Lemma reduce_from_invariant (I : B → Prop) k l acc :
  I acc →
  (∀ j x a, l !! j = Some x → I a → I (f a x (k + j))) →
  I (reduce_from f k l acc).
Proof.
  revert k acc. induction l as [|x l IH]; intros k acc Hacc Hstep; simpl; [done|].
  apply IH.
  - specialize (Hstep 0%nat x acc). rewrite Nat.add_0_r in Hstep. by apply Hstep.
  - intros j y a Hj Ha. replace (S k + j)%nat with (k + S j)%nat by lia.
    by apply Hstep.
Qed.

(** The run over a list, cut at the element of index [i]. *)
Lemma reduce_at i x l init :
  l !! i = Some x →
  reduce f l init
  = reduce_from f (S i) (drop (S i) l) (f (reduce_from f 0 (take i l) init) x i).
Proof.
  intros Hi. unfold reduce.
  rewrite <- (take_drop_middle l i x Hi) at 1.
  rewrite reduce_from_app. simpl.
  assert (length (take i l) = i) as ->; [|done].
  apply lookup_lt_Some in Hi. rewrite length_take. lia.
Qed.
End Reduce.

(** ** Ascending boundaries *)

Lemma ascending_cons x b : ascending (x :: b) = true → ascending b = true.
Proof. destruct b as [|y b]; [done|]. simpl. by intros [_ ?]%andb_true_iff. Qed.

Lemma ascending_next (b : list Q) i x y :
  ascending b = true → b !! i = Some x → b !! S i = Some y → (x < y)%Q.
Proof.
  revert i. induction b as [|z b IH]; intros i Hasc Hx Hy; [done|].
  destruct i as [|i].
  - destruct b as [|w b]; [done|]. simpl in *. simplify_eq.
    apply andb_true_iff in Hasc as [Hlt _]. by apply Qlt_bool_iff.
  - apply (IH i); [by eapply ascending_cons|done|done].
Qed.

Lemma ascending_le (b : list Q) i j x y :
  ascending b = true → (i ≤ j)%nat → b !! i = Some x → b !! j = Some y → (x <= y)%Q.
Proof.
  intros Hasc Hij Hx. revert y. induction Hij as [|j Hij IH]; intros y Hy.
  - simplify_eq. lra.
  - destruct (lookup_lt_is_Some_2 b j) as [z Hz].
    { apply lookup_lt_Some in Hy. lia. }
    specialize (IH z Hz). pose proof (ascending_next b j z y Hasc Hz Hy). lra.
Qed.

(** ** The range bucketer *)

Lemma getCapacityRange_reduce h venue :
  getCapacityRange h venue
  = reduce (range_step h (VENUE_CAPACITY_RANGES h) (get venue "capacity"))
      (VENUE_CAPACITY_RANGES h) VNull.
Proof. reflexivity. Qed.

Lemma getEntranceFeeRange_reduce h venue cityConf :
  getEntranceFeeRange h venue cityConf
  = reduce (range_step h (entranceFeeRanges cityConf) (get (get venue "fees") "entrance"))
      (entranceFeeRanges cityConf) VNull.
Proof. reflexivity. Qed.

Section Bucketer.
Variables (h : host) (b : list Q) (v : Q).

Local Abbreviation step := (range_step h b (VNum v)).

Lemma step_settled range x i : truthy range = true → step range x i = range.
Proof. intros Ht. unfold range_step. by rewrite Ht. Qed.

Lemma step_last range x i :
  truthy range = false → b !! S i = None → step range x i = VNum x.
Proof.
  intros Ht Hi. unfold range_step. rewrite Ht.
  by replace (i + 1)%nat with (S i) by lia; rewrite Hi.
Qed.

Lemma step_inside range x u i :
  truthy range = false → b !! S i = Some u → ¬ (u == 0)%Q →
  (x < v)%Q → (v <= u)%Q →
  step range x i = VArr [VNum x; VNum u].
Proof.
  intros Ht Hi Hu Hlo Hhi. unfold range_step. rewrite Ht.
  replace (i + 1)%nat with (S i) by lia. rewrite Hi.
  apply truthy_num in Hu. rewrite Hu. simpl negb.
  apply (js_gt_num h) in Hlo. apply (js_le_num h) in Hhi.
  by rewrite Hlo, Hhi.
Qed.

Lemma step_outside range x u i :
  truthy range = false → b !! S i = Some u → ¬ (u == 0)%Q →
  ¬ ((x < v)%Q ∧ (v <= u)%Q) →
  step range x i = VUndef.
Proof.
  intros Ht Hi Hu Hout. unfold range_step. rewrite Ht.
  replace (i + 1)%nat with (S i) by lia. rewrite Hi.
  apply truthy_num in Hu. rewrite Hu. simpl negb.
  destruct (js_gt h (VNum v) x) eqn:Hgt; [|done].
  destruct (js_le h (VNum v) u) eqn:Hle; [|done].
  apply js_gt_num in Hgt. apply js_le_num in Hle. tauto.
Qed.

(** Non-negative ascending boundaries: only the first may be zero. *)
Lemma later_boundary_nonzero first i u :
  ascending b = true → b !! 0%nat = Some first → (0 <= first)%Q →
  b !! S i = Some u → ¬ (u == 0)%Q.
Proof.
  intros Hasc H0 Hfirst Hu.
  destruct (lookup_lt_is_Some_2 b i) as [x Hx].
  { apply lookup_lt_Some in Hu. lia. }
  pose proof (ascending_le b 0 i first x Hasc ltac:(lia) H0 Hx).
  pose proof (ascending_next b i x u Hasc Hx Hu). lra.
Qed.

(** No bucket up to index [n] holds the value: the run is still open. *)
Lemma prefix_open first n :
  ascending b = true → b !! 0%nat = Some first → (0 <= first)%Q →
  (n < length b)%nat →
  (∀ j x u, (j < n)%nat → b !! j = Some x → b !! S j = Some u →
            ¬ ((x < v)%Q ∧ (v <= u)%Q)) →
  truthy (reduce_from step 0 (take n b) VNull) = false.
Proof.
  intros Hasc H0 Hfirst Hn Hout.
  apply (reduce_from_invariant step (fun a => truthy a = false)); [done|].
  intros j x a Hj Ha. simpl.
  apply lookup_take_Some in Hj as [Hj Hjn].
  destruct (lookup_lt_is_Some_2 b (S j)) as [u Hu]; [lia|].
  rewrite (step_outside a x u j); eauto using later_boundary_nonzero.
Qed.

Lemma range_below_first first top :
  ascending b = true → b !! 0%nat = Some first → (0 <= first)%Q →
  (v <= first)%Q → last b = Some top →
  reduce step b VNull = VNum top.
Proof.
  intros Hasc H0 Hfirst Hv Htop. rewrite last_lookup in Htop.
  assert (0 < length b)%nat as Hlen by (apply lookup_lt_Some in H0; lia).
  rewrite (reduce_at step (pred (length b)) top b VNull Htop).
  replace (S (pred (length b))) with (length b) by lia.
  rewrite drop_all. simpl.
  apply step_last; [|apply lookup_ge_None; lia].
  apply (prefix_open first); [done..|lia|].
  intros j x u Hj Hx Hu [Hlo _].
  pose proof (ascending_le b 0 j first x Hasc ltac:(lia) H0 Hx). lra.
Qed.

Lemma earlier_bucket_misses i lo j x u :
  ascending b = true → b !! i = Some lo → (lo < v)%Q →
  (j < i)%nat → b !! j = Some x → b !! S j = Some u →
  ¬ ((x < v)%Q ∧ (v <= u)%Q).
Proof.
  intros Hasc Hlo Hv Hj Hx Hu [_ Hhi].
  pose proof (ascending_le b (S j) i u lo Hasc ltac:(lia) Hu Hlo). lra.
Qed.

Lemma range_in_bucket first i lo hi :
  ascending b = true → b !! 0%nat = Some first → (0 <= first)%Q →
  b !! i = Some lo → b !! S i = Some hi → (lo < v)%Q → (v <= hi)%Q →
  reduce step b VNull = VArr [VNum lo; VNum hi].
Proof.
  intros Hasc H0 Hfirst Hlo Hhi Hv1 Hv2.
  rewrite (reduce_at step i lo b VNull Hlo).
  rewrite (step_inside _ lo hi i); [|..|done|done].
  - apply reduce_from_settled. intros x k. by apply step_settled.
  - apply (prefix_open first); [done|done|done| |].
    + apply lookup_lt_Some in Hhi. lia.
    + intros j x u Hj Hx Hu. by apply (earlier_bucket_misses i lo j x u).
  - done.
  - by eapply later_boundary_nonzero.
Qed.
End Bucketer.

(** ** Price class *)

Lemma later_nonzero_lookup (b : list Q) i u :
  later_nonzero b = true → b !! S i = Some u → ¬ (u == 0)%Q.
Proof.
  unfold later_nonzero. intros Hall Hu. destruct b as [|x b]; [done|].
  simpl in *. rewrite forallb_forall in Hall.
  apply truthy_num. apply (Hall u). apply list_elem_of_In.
  by eapply list_elem_of_lookup_2.
Qed.

Lemma first_interval_step lo hi (b : list Q) p :
  first_interval (lo :: hi :: b) p
  = if Qlt_bool lo p && Qle_bool p hi then Some 0%nat
    else S <$> first_interval (hi :: b) p.
Proof. reflexivity. Qed.

Lemma first_interval_Some (b : list Q) p i :
  first_interval b p = Some i →
  (∃ lo hi, b !! i = Some lo ∧ b !! S i = Some hi
            ∧ Qlt_bool lo p && Qle_bool p hi = true)
  ∧ (∀ j x u, (j < i)%nat → b !! j = Some x → b !! S j = Some u →
              Qlt_bool x p && Qle_bool p u = false).
Proof.
  revert i. induction b as [|lo b IH]; intros i Hi; [done|].
  destruct b as [|hi b]; [done|].
  rewrite first_interval_step in Hi.
  destruct (Qlt_bool lo p && Qle_bool p hi) eqn:Hin.
  - simplify_eq. split.
    + exists lo, hi. done.
    + intros j x u Hj. lia.
  - destruct (first_interval (hi :: b) p) as [i'|] eqn:Hrest; simpl in Hi; [|done].
    simplify_eq.
    destruct (IH i' eq_refl) as [(lo' & hi' & H1 & H2 & H3) Hmin].
    split.
    + exists lo', hi'. done.
    + intros [|j] x u Hj Hx Hu.
      * simpl in Hx, Hu. by simplify_eq.
      * apply (Hmin j x u); [lia|done|done].
Qed.

Lemma first_interval_None (b : list Q) p :
  first_interval b p = None →
  ∀ j x u, b !! j = Some x → b !! S j = Some u →
           Qlt_bool x p && Qle_bool p u = false.
Proof.
  induction b as [|lo b IH]; intros Hnone j x u Hx Hu; [done|].
  destruct b as [|hi b]; [done|].
  rewrite first_interval_step in Hnone.
  destruct (Qlt_bool lo p && Qle_bool p hi) eqn:Hin; [done|].
  destruct (first_interval (hi :: b) p) eqn:Hrest; simpl in Hnone; [done|].
  destruct j as [|j].
  - simpl in Hx, Hu. by simplify_eq.
  - by apply (IH eq_refl j x u).
Qed.

Section PriceClass.
Variables (h : host) (b : list Q) (price : value).

Local Abbreviation step := (class_step h b price).
Local Abbreviation class n := (VNum (inject_Z (Z.of_nat n))).








End PriceClass.

Lemma getClassForRanges_empty h price : getClassForRanges h [] price = VNull.
Proof. reflexivity. Qed.






(** Ascending boundaries that are not negative have no zero after the
    first. *)
Lemma later_nonzero_ascending (b : list Q) first :
  ascending b = true → b !! 0%nat = Some first → (0 <= first)%Q →
  later_nonzero b = true.
Proof.
  intros Hasc H0 Hfirst. unfold later_nonzero. apply forallb_forall.
  intros u Hu. apply truthy_num.
  apply list_elem_of_In, list_elem_of_lookup in Hu as [i Hi].
  apply (later_boundary_nonzero b first i u); try done.
  by destruct b.
Qed.

(** The specification's index on ascending boundaries: a price inside the
    interval of index [i] has class [i + 1], and a price above every
    boundary has the last index. *)
Lemma class_index_interval (b : list Q) (p lo hi : Q) i :
  ascending b = true → b !! i = Some lo → b !! S i = Some hi →
  (lo < p)%Q → (p <= hi)%Q → class_index b p = S i.
Proof.
  intros Hasc Hlo Hhi Hp1 Hp2. unfold class_index.
  destruct (first_interval b p) as [k|] eqn:Hk.
  - apply first_interval_Some in Hk as [(x & u & Hx & Hu & Hin) Hmin].
    apply andb_true_iff in Hin as [Hin1%Qlt_bool_iff Hin2%Qle_bool_iff].
    destruct (lt_eq_lt_dec k i) as [[Hlt | -> ] | Hgt]; [|done|].
    + pose proof (ascending_le b (S k) i u lo Hasc ltac:(lia) Hu Hlo). lra.
    + pose proof (ascending_le b (S i) k hi x Hasc ltac:(lia) Hhi Hx). lra.
  - pose proof (first_interval_None b p Hk i lo hi Hlo Hhi) as Hout.
    apply (Qlt_bool_iff lo p) in Hp1. apply (Qle_bool_iff p hi) in Hp2.
    rewrite Hp1, Hp2 in Hout. done.
Qed.

Lemma class_index_above (b : list Q) (p : Q) :
  (∀ x, x ∈ b → (x < p)%Q) → class_index b p = length b.
Proof.
  intros Habove. unfold class_index.
  destruct (first_interval b p) as [k|] eqn:Hk; [|done].
  apply first_interval_Some in Hk as [(x & u & Hx & Hu & Hin) _].
  apply andb_true_iff in Hin as [_ Hin2%Qle_bool_iff].
  apply list_elem_of_lookup_2, Habove in Hu. lra.
Qed.

(** ** Properties of objects *)

Lemma get_own o k : get o k = default VUndef (own o k).
Proof. by destruct o. Qed.

Lemma own_set_ne o k k' v : k ≠ k' → own (set o k v) k' = own o k'.
Proof. intros Hk. destruct o; simpl; try done. by rewrite lookup_insert_ne. Qed.

Lemma own_del_ne o k k' : k ≠ k' → own (del o k) k' = own o k'.
Proof. intros Hk. destruct o; simpl; try done. by rewrite lookup_delete_ne. Qed.

Lemma get_insert_eq m k v : get (VObj (<[k := v]> m)) k = v.
Proof. simpl. by rewrite lookup_insert_eq. Qed.

Lemma get_insert_ne m k k' v : k ≠ k' → get (VObj (<[k := v]> m)) k' = get (VObj m) k'.
Proof. intros Hk. simpl. by rewrite lookup_insert_ne. Qed.

Lemma get_delete_eq m k : get (VObj (delete k m)) k = VUndef.
Proof. simpl. by rewrite lookup_delete_eq. Qed.

Lemma get_delete_ne m k k' : k ≠ k' → get (VObj (delete k m)) k' = get (VObj m) k'.
Proof. intros Hk. simpl. by rewrite lookup_delete_ne. Qed.

Lemma truthy_not_nullish v : truthy v = true → nullish v = false.
Proof. by destruct v. Qed.

Lemma member_not_nullish o k : nullish o = false → member o k = Ok (get o k).
Proof. by destruct o. Qed.

Lemma item_not_nullish a i : nullish a = false → ∃ x, item a i = Ok x.
Proof. destruct a; simpl; try done; eauto. Qed.

(** ** What a computation leaves alone *)

Section Touches.
Context {A B : Type} (K : list string).

Lemma touches_ret (a : A) : touches K (ret a).
Proof. by intros o k _. Qed.

Lemma touches_lift (r : result A) : touches K (lift r).
Proof. by intros o k _. Qed.

Lemma touches_bind (c : M A) (f : A → M B) :
  touches K c → (∀ a, touches K (f a)) → touches K (bind c f).
Proof.
  intros Hc Hf o k Hk. unfold bind. specialize (Hc o k Hk).
  destruct (c o) as [o' [a|e]]; simpl in *; [|done].
  by rewrite (Hf a o' k Hk).
Qed.
End Touches.

Lemma touches_this K : touches K this.
Proof. by intros o k _. Qed.

Lemma touches_read K k : touches K (read k).
Proof. by intros o k' _. Qed.

Lemma touches_write K k v : k ∈ K → touches K (write k v).
Proof.
  intros Hk o k' Hk'. unfold write.
  assert (k ≠ k') by (intros ->; done).
  destruct o; simpl; try done. by rewrite lookup_insert_ne.
Qed.

Lemma touches_remove K k : k ∈ K → touches K (remove k).
Proof.
  intros Hk o k' Hk'. unfold remove.
  assert (k ≠ k') by (intros ->; done).
  destruct o; simpl; try done. by rewrite lookup_delete_ne.
Qed.

Lemma touches_write_in K k1 k2 v : k1 ∈ K → touches K (write_in k1 k2 v).
Proof.
  intros Hk o k' Hk'. unfold write_in.
  assert (k1 ≠ k') by (intros ->; done).
  destruct (member o k1) as [[]|]; simpl; try done; by rewrite own_set_ne.
Qed.

Ltac touches_step :=
  first
    [ apply touches_ret | apply touches_lift | apply touches_this
    | apply touches_read
    | apply touches_write; set_solver
    | apply touches_remove; set_solver
    | apply touches_write_in; set_solver
    | apply touches_bind; [|intros ?]
    | match goal with |- touches _ (if ?b then _ else _) => destruct b end
    | match goal with |- touches _ (match ?x with _ => _ end) => destruct x end ].

Lemma deserializeImage_steps_touches : touches ["id"; "_id"] deserializeImage_steps.
Proof. unfold deserializeImage_steps. repeat touches_step. Qed.

Lemma serialize_steps_touches h :
  touches ["id"; "_id"; "priceClass"; "location"; "queryText"] (serialize_steps h).
Proof. unfold serialize_steps. repeat touches_step. Qed.

Lemma reshape_touches :
  touches ["id"; "_id"; "sourceId"; "queryText"; "images"; "location"] reshape.
Proof. unfold reshape. repeat touches_step. Qed.

Lemma set_computed_fields_touches h cityConf :
  touches ["capacityRange"; "currency"; "entranceFeeRange"]
    (set_computed_fields h cityConf).
Proof. unfold set_computed_fields. repeat touches_step. Qed.

Lemma deserialize_steps_touches h :
  touches ["id"; "_id"; "sourceId"; "queryText"; "images"; "location";
           "capacityRange"; "currency"; "entranceFeeRange"]
    (deserialize_steps h).
Proof.
  unfold deserialize_steps, reshape, set_computed_fields. repeat touches_step.
Qed.

(** ** Running the statements on an object *)

Ltac norm_get :=
  repeat first
    [ rewrite get_insert_eq
    | rewrite get_delete_eq
    | rewrite get_insert_ne by done
    | rewrite get_delete_ne by done ].

Ltac run_step :=
  cbn [bind ret lift this read write remove member set del nullish];
  norm_get.

Ltac split_truthy :=
  match goal with
  | |- context [if truthy ?x then _ else _] =>
      let E := fresh "E" in destruct (truthy x) eqn:E
  end.

Lemma set_computed_fields_ok h cityConf m :
  (truthy (get (VObj m) "fees") = true → is_Some cityConf) →
  ∃ m', set_computed_fields h cityConf (VObj m) = (VObj m', Ok tt)
    ∧ (truthy (get (VObj m) "capacity") = false →
       m' !! "capacityRange" = m !! "capacityRange")
    ∧ (truthy (get (VObj m) "fees") = false →
       m' !! "currency" = m !! "currency"
       ∧ m' !! "entranceFeeRange" = m !! "entranceFeeRange").
Proof.
  intros Hconf. unfold set_computed_fields. run_step.
  split_truthy; run_step; split_truthy; run_step.
  - destruct Hconf as [conf ->]; [done|]. run_step.
    rewrite member_not_nullish by by apply truthy_not_nullish. run_step.
    split_truthy; run_step; eexists; (split; [reflexivity|]); done.
  - eexists; split; [reflexivity|]. split; [done|].
    intros _. by rewrite !lookup_insert_ne by done.
  - destruct Hconf as [conf ->]; [done|]. run_step.
    rewrite member_not_nullish by by apply truthy_not_nullish. run_step.
    split_truthy; run_step; eexists; (split; [reflexivity|]); split; try done;
      intros _; by rewrite !lookup_insert_ne by done.
  - eexists; split; [reflexivity|]. done.
Qed.

Lemma write_in_object m k1 k2 v :
  nullish (get (VObj m) k1) = false →
  write_in k1 k2 v (VObj m)
  = (VObj (<[k1 := set (get (VObj m) k1) k2 v]> m), Ok tt).
Proof.
  intros Hn. unfold write_in. cbn [member set].
  by destruct (get (VObj m) k1).
Qed.

Lemma bind_run {A B} (c : M A) (f : A → M B) o o' a :
  c o = (o', Ok a) → bind c f o = f a o'.
Proof. intros Hc. unfold bind. by rewrite Hc. Qed.

Lemma bind_throw {A B} (c : M A) (f : A → M B) o o' e :
  c o = (o', Throw e) → bind c f o = (o', Throw e).
Proof. intros Hc. unfold bind. by rewrite Hc. Qed.

Ltac key_solver :=
  repeat (apply not_elem_of_cons; split; [done|]); apply not_elem_of_nil.

Lemma touches_object {A} K (c : M A) m m' r :
  touches K c → c (VObj m) = (VObj m', r) → ∀ k, k ∉ K → m' !! k = m !! k.
Proof. intros Hc Hrun k Hk. specialize (Hc (VObj m) k Hk). by rewrite Hrun in Hc. Qed.

Lemma reshape_ok m l :
  get (VObj m) "location" = VObj l →
  (truthy (get (VObj m) "images") = true →
   ∃ mapped, array_map deserializeImage (get (VObj m) "images") = Ok mapped) →
  (truthy (get (VObj l) "coordinates") = true →
   nullish (get (get (VObj l) "coordinates") "coordinates") = false) →
  ∃ m' l', reshape (VObj m) = (VObj m', Ok tt)
    ∧ get (VObj m') "location" = VObj l'
    ∧ (∀ k, k ≠ "coordinates" → l' !! k = l !! k)
    ∧ (truthy (get (VObj l) "coordinates") = false → l' = l)
    ∧ (truthy (get (VObj l) "coordinates") = true →
       ∀ lon lat,
         item (get (get (VObj l) "coordinates") "coordinates") 0 = Ok lon →
         item (get (get (VObj l) "coordinates") "coordinates") 1 = Ok lat →
         l' !! "coordinates" = Some (VObj {[ "longitude" := lon; "latitude" := lat ]})).
Proof.
  intros Hloc Himg Hinner. unfold reshape. run_step.
  assert (∀ m1, get (VObj m1) "location" = VObj l →
    ∃ m' l',
      (if truthy (get (VObj l) "coordinates")
       then
         bind (lift (member (get (VObj l) "coordinates") "coordinates")) (fun inner =>
         bind (lift (item inner 0)) (fun longitude =>
         bind (lift (item inner 1)) (fun latitude =>
           write_in "location" "coordinates"
             (VObj {[ "longitude" := longitude; "latitude" := latitude ]}))))
       else ret tt) (VObj m1) = (VObj m', Ok tt)
      ∧ get (VObj m') "location" = VObj l'
      ∧ (∀ k, k ≠ "coordinates" → l' !! k = l !! k)
      ∧ (truthy (get (VObj l) "coordinates") = false → l' = l)
      ∧ (truthy (get (VObj l) "coordinates") = true →
         ∀ lon lat,
           item (get (get (VObj l) "coordinates") "coordinates") 0 = Ok lon →
           item (get (get (VObj l) "coordinates") "coordinates") 1 = Ok lat →
           l' !! "coordinates"
           = Some (VObj {[ "longitude" := lon; "latitude" := lat ]}))) as Hdecode.
  { intros m1 Hloc1.
    destruct (truthy (get (VObj l) "coordinates")) eqn:Hc.
    - rewrite member_not_nullish by by apply truthy_not_nullish.
      destruct (item_not_nullish _ 0 (Hinner eq_refl)) as [lon Hlon].
      destruct (item_not_nullish _ 1 (Hinner eq_refl)) as [lat Hlat].
      run_step. rewrite Hlon. run_step. rewrite Hlat. run_step.
      rewrite write_in_object by by rewrite Hloc1.
      rewrite Hloc1. cbn [set].
      eexists _, _. split; [reflexivity|]. split; [by norm_get|].
      split; [|split; [done|]].
      + intros k Hk. by rewrite lookup_insert_ne.
      + intros _ lon' lat' Hlon' Hlat'. rewrite lookup_insert_eq. congruence.
    - exists m1, l. done. }
  destruct (truthy (get (VObj m) "images")) eqn:Hi.
  - destruct Himg as [mapped ->]; [done|].
    run_step. rewrite Hloc. run_step. apply Hdecode. by norm_get.
  - run_step. rewrite Hloc. run_step. apply Hdecode. by norm_get.
Qed.

Lemma deserialize_steps_ok h m l cityConf :
  get (VObj m) "location" = VObj l →
  (truthy (get (VObj m) "images") = true →
   ∃ mapped, array_map deserializeImage (get (VObj m) "images") = Ok mapped) →
  (truthy (get (VObj l) "coordinates") = true →
   nullish (get (get (VObj l) "coordinates") "coordinates") = false) →
  cityConfig_get h (get (VObj l) "country") (get (VObj l) "city") = Ok cityConf →
  (truthy (get (VObj m) "fees") = true → is_Some cityConf) →
  ∃ m' l', deserialize_steps h (VObj m) = (VObj m', Ok tt)
    ∧ get (VObj m') "location" = VObj l'
    ∧ (∀ k, k ≠ "coordinates" → l' !! k = l !! k)
    ∧ (truthy (get (VObj l) "coordinates") = false → l' = l)
    ∧ (truthy (get (VObj l) "coordinates") = true →
       ∀ lon lat,
         item (get (get (VObj l) "coordinates") "coordinates") 0 = Ok lon →
         item (get (get (VObj l) "coordinates") "coordinates") 1 = Ok lat →
         l' !! "coordinates" = Some (VObj {[ "longitude" := lon; "latitude" := lat ]}))
    ∧ (truthy (get (VObj m) "capacity") = false →
       m' !! "capacityRange" = m !! "capacityRange")
    ∧ (truthy (get (VObj m) "fees") = false →
       m' !! "currency" = m !! "currency"
       ∧ m' !! "entranceFeeRange" = m !! "entranceFeeRange").
Proof.
  intros Hloc Himg Hinner Hconf Hfees.
  destruct (reshape_ok m l Hloc Himg Hinner)
    as (m1 & l1 & Hrun & Hloc1 & Hsame & Hkeep & Hdec).
  pose proof (touches_object _ _ _ _ _ reshape_touches Hrun) as Hframe.
  assert (get (VObj m1) "fees" = get (VObj m) "fees") as Hf1.
  { simpl. rewrite Hframe; [done|key_solver]. }
  assert (get (VObj m1) "capacity" = get (VObj m) "capacity") as Hc1.
  { simpl. rewrite Hframe; [done|key_solver]. }
  destruct (set_computed_fields_ok h cityConf m1)
    as (m2 & Hrun2 & Hcap & Hfee); [by rewrite Hf1|].
  pose proof (touches_object _ _ _ _ _ (set_computed_fields_touches h cityConf) Hrun2)
    as Hframe2.
  exists m2, l1. split.
  { unfold deserialize_steps. rewrite (bind_run _ _ _ _ _ Hrun). run_step.
    rewrite Hloc1. run_step.
    assert (get (VObj l1) "country" = get (VObj l) "country") as ->.
    { simpl. by rewrite Hsame. }
    assert (get (VObj l1) "city" = get (VObj l) "city") as ->.
    { simpl. by rewrite Hsame. }
    rewrite Hconf. run_step. done. }
  split.
  { rewrite <- Hloc1. simpl. rewrite Hframe2; [done|key_solver]. }
  split; [done|]. split; [done|]. split; [done|]. split.
  - intros Hcapf. rewrite Hcap by by rewrite Hc1. apply Hframe. key_solver.
  - intros Hfeef. destruct Hfee as [-> ->]; [by rewrite Hf1|].
    split; apply Hframe; key_solver.
Qed.

(** The lookup of the city configuration is made whatever the document
    holds: when it fails, so does [deserialize]. *)
Lemma deserialize_steps_lookup_fails h m l e :
  get (VObj m) "location" = VObj l →
  (truthy (get (VObj m) "images") = true →
   ∃ mapped, array_map deserializeImage (get (VObj m) "images") = Ok mapped) →
  (truthy (get (VObj l) "coordinates") = true →
   nullish (get (get (VObj l) "coordinates") "coordinates") = false) →
  cityConfig_get h (get (VObj l) "country") (get (VObj l) "city") = Throw e →
  ∃ o', deserialize_steps h (VObj m) = (o', Throw e).
Proof.
  intros Hloc Himg Hinner Hconf.
  destruct (reshape_ok m l Hloc Himg Hinner)
    as (m1 & l1 & Hrun & Hloc1 & Hsame & _).
  unfold deserialize_steps. rewrite (bind_run _ _ _ _ _ Hrun). run_step.
  rewrite Hloc1. run_step.
  assert (get (VObj l1) "country" = get (VObj l) "country") as ->.
  { simpl. by rewrite Hsame. }
  assert (get (VObj l1) "city" = get (VObj l) "city") as ->.
  { simpl. by rewrite Hsame. }
  rewrite Hconf. run_step. eauto.
Qed.

(** ** Documents without a location *)

Lemma deserializeImage_error venueImage e :
  deserializeImage venueImage = Throw e → e = TypeError.
Proof.
  unfold deserializeImage.
  destruct venueImage; simpl; try congruence;
    match goal with |- context [if ?b then _ else _] => destruct b end;
    congruence.
Qed.

Lemma map_elements_error l e :
  map_elements deserializeImage l = Throw e → e = TypeError.
Proof.
  induction l as [|x l IH]; simpl; [done|].
  destruct (deserializeImage x) eqn:Hx.
  - destruct (map_elements deserializeImage l); [done|].
    intros [= <-]. by apply IH.
  - intros [= <-]. by eapply deserializeImage_error.
Qed.

Lemma array_map_error a e :
  array_map deserializeImage a = Throw e → e = TypeError.
Proof.
  destruct a; simpl; try congruence.
  destruct (map_elements deserializeImage l) eqn:Hl; [done|].
  intros [= <-]. by eapply map_elements_error.
Qed.

Lemma reshape_without_location o :
  nullish (get o "location") = true → ∃ o', reshape o = (o', Throw TypeError).
Proof.
  intros Hloc. destruct o as [| | | | | | |m]; try (eexists; reflexivity).
  unfold reshape. run_step.
  destruct (truthy (get (VObj m) "images")).
  - destruct (array_map deserializeImage (get (VObj m) "images")) as [mapped|e] eqn:Hmap.
    + run_step. destruct (get (VObj m) "location"); try done; eauto.
    + apply array_map_error in Hmap as ->. run_step. eauto.
  - run_step. destruct (get (VObj m) "location"); try done; eauto.
Qed.

Lemma deserialize_steps_without_location h o :
  nullish (get o "location") = true →
  ∃ o', deserialize_steps h o = (o', Throw TypeError).
Proof.
  intros Hloc. destruct (reshape_without_location o Hloc) as [o' Hrun].
  exists o'. unfold deserialize_steps. by rewrite (bind_throw _ _ _ _ _ Hrun).
Qed.

(** ** Running serialize on an object *)

Ltac norm_lookup :=
  repeat first
    [ rewrite lookup_insert_eq
    | rewrite lookup_delete_eq
    | rewrite lookup_insert_ne by done
    | rewrite lookup_delete_ne by done ].


Lemma getPriceClass_prices h venue venue' cityConf :
  get venue "prices" = get venue' "prices" →
  getPriceClass h venue cityConf = getPriceClass h venue' cityConf.
Proof. intros Hp. unfold getPriceClass. by rewrite Hp. Qed.

Lemma serialize_steps_ok h m :
  let location := get (VObj m) "location" in
  let lookup := truthy location && truthy (get location "country")
                && truthy (get location "city") in
  (lookup = true →
   ∃ cityConf, cityConfig_get h (get location "country") (get location "city") = Ok cityConf) →
  (truthy (get (VObj m) "queryText") = false →
   ∃ ascii_name, unidecode h (get (VObj m) "name") = Ok ascii_name) →
  ∃ m', serialize_steps h (VObj m) = (VObj m', Ok tt)
    ∧ (truthy location && truthy (get location "coordinates") = true →
       get (VObj m') "location"
       = set location "coordinates" (point (get location "coordinates")))
    ∧ (truthy location && truthy (get location "coordinates") = false →
       get (VObj m') "location" = location)
    ∧ (truthy (get (VObj m) "prices") = false →
       m' !! "priceClass" = m !! "priceClass")
    ∧ (truthy (get (VObj m) "prices") = true → lookup = true →
       ∀ conf,
         cityConfig_get h (get location "country") (get location "city") = Ok (Some conf) →
         m' !! "priceClass" = Some (getPriceClass h (VObj m) conf)).
Proof.
  intros location lookup Hconf Hname. subst location lookup.
  unfold serialize_steps, point. run_step.
  destruct (truthy (get (VObj m) "id")) eqn:Hid; run_step.
  all: destruct (truthy (get (VObj m) "location")
                 && truthy (get (get (VObj m) "location") "country")
                 && truthy (get (get (VObj m) "location") "city")) eqn:Hlk;
    [destruct (Hconf eq_refl) as [[conf0|] Hcc]; rewrite Hcc|]; run_step.
  all: destruct (truthy (get (VObj m) "prices")) eqn:Hp; run_step.
  all: destruct (truthy (get (VObj m) "location")
                 && truthy (get (get (VObj m) "location") "coordinates")) eqn:Hco;
    [erewrite (bind_run (write_in _ _ _))
       by (apply write_in_object; norm_get; apply truthy_not_nullish;
           by apply andb_true_iff in Hco as [? _])|];
    run_step.
  all: destruct (truthy (get (VObj m) "queryText")) eqn:Hq;
    [|destruct (Hname eq_refl) as [ascii_name Hq']; run_step; rewrite Hq']; run_step.
  all: eexists; split; [reflexivity|].
  all: repeat split; intros; try congruence; norm_get; norm_lookup; try done.
  all: assert (conf0 = conf) as -> by congruence.
  all: f_equal; apply getPriceClass_prices; by norm_get.
Qed.

(** ** The store *)

Lemma deref_lookup (s : store) r c : s !! r = Some c → deref s r = contents c.
Proof. intros Hr. unfold deref. by rewrite Hr. Qed.

Lemma contents_with_contents c o : contents (with_contents c o) = o.
Proof. by destruct c. Qed.

Lemma serialize_run h (s : store) data :
  serialize h data s
  = (alter (fun c => with_contents c (serialize_steps h (deref s data)).1) data s,
     match (serialize_steps h (deref s data)).2 with
     | Ok _ => Ok data
     | Throw e => Throw e
     end).
Proof. unfold serialize. by destruct (serialize_steps h (deref s data)) as [o [[]|e]]. Qed.

Lemma deref_serialize h (s : store) data :
  (data < length s)%nat →
  deref (serialize h data s).1 data = (serialize_steps h (deref s data)).1.
Proof.
  intros Hlt. rewrite serialize_run. cbn [fst]. unfold deref at 1.
  rewrite list_lookup_alter_eq.
  destruct (lookup_lt_is_Some_2 s data Hlt) as [c Hc]. rewrite Hc at 1.
  cbn [fmap option_fmap option_map]. apply contents_with_contents.
Qed.


Lemma deserialize_plain h (s : store) venue m :
  s !! venue = Some (Plain (VObj m)) →
  truthy (get (VObj m) "toObject") = false →
  deserialize h venue s
  = (s ++ [Plain (deserialize_steps h (VObj m)).1],
     match (deserialize_steps h (VObj m)).2 with
     | Ok _ => Ok (length s)
     | Throw e => Throw e
     end).
Proof.
  intros Hv Hto. unfold deserialize, snapshot. rewrite Hv. cbn [member].
  rewrite Hto. unfold cloneDeep.
  by destruct (deserialize_steps h (VObj m)) as [o [[]|e]].
Qed.

Lemma deref_new (s : store) c : deref (s ++ [c]) (length s) = contents c.
Proof. unfold deref. by rewrite list_lookup_middle. Qed.

(** ** Inputs the functions accept *)

Lemma is_ok_Ok {A} (r : result A) : is_ok r = true → ∃ a, r = Ok a.
Proof. destruct r; [eauto|done]. Qed.

Lemma name_normalises_spec h data :
  name_normalises h data = true →
  truthy (get data "queryText") = false →
  ∃ ascii_name, unidecode h (get data "name") = Ok ascii_name.
Proof.
  unfold name_normalises. intros Hn Hq. rewrite Hq in Hn. by apply is_ok_Ok.
Qed.

Lemma lookup_succeeds_spec h data :
  lookup_succeeds h data = true →
  truthy (get data "location") && truthy (get (get data "location") "country")
  && truthy (get (get data "location") "city") = true →
  ∃ cityConf,
    cityConfig_get h (get (get data "location") "country")
      (get (get data "location") "city") = Ok cityConf.
Proof.
  unfold lookup_succeeds. intros Hl Hc. rewrite Hc in Hl. by apply is_ok_Ok.
Qed.

Lemma images_deserialisable_spec venue :
  images_deserialisable venue = true →
  truthy (get venue "images") = true →
  ∃ mapped, array_map deserializeImage (get venue "images") = Ok mapped.
Proof.
  unfold images_deserialisable. intros Hi Ht. rewrite Ht in Hi. by apply is_ok_Ok.
Qed.

Lemma point_stored_spec location :
  point_stored location = true →
  truthy (get location "coordinates") = true →
  nullish (get (get location "coordinates") "coordinates") = false.
Proof.
  unfold point_stored. intros Hp Ht. rewrite Ht in Hp. by apply negb_true_iff.
Qed.

Lemma fees_resolved_spec venue cityConf :
  fees_resolved venue cityConf = true →
  truthy (get venue "fees") = true → is_Some cityConf.
Proof.
  unfold fees_resolved. intros Hf Ht. rewrite Ht in Hf.
  by apply bool_decide_eq_true in Hf.
Qed.

(** ** serialize and deserialize on the store *)

Lemma serialize_result h (s : store) data m m' :
  s !! data = Some (Plain (VObj m)) →
  serialize_steps h (VObj m) = (VObj m', Ok tt) →
  (serialize h data s).2 = Ok data
  ∧ deref (serialize h data s).1 data = VObj m'
  ∧ (serialize h data s).1 !! data = Some (Plain (VObj m'))
  ∧ length (serialize h data s).1 = length s.
Proof.
  intros Hd Hrun.
  rewrite serialize_run, (deref_lookup s data _ Hd). cbn [contents fst snd].
  rewrite Hrun. cbn [fst snd]. split; [done|].
  assert (alter (fun c => with_contents c (VObj m')) data s !! data
          = Some (Plain (VObj m'))) as Hcell.
  { rewrite list_lookup_alter_eq, Hd. done. }
  split; [by rewrite (deref_lookup _ _ _ Hcell)|]. split; [done|].
  apply length_alter.
Qed.

Lemma deserialize_result h (s : store) venue m m' :
  s !! venue = Some (Plain (VObj m)) →
  truthy (get (VObj m) "toObject") = false →
  deserialize_steps h (VObj m) = (VObj m', Ok tt) →
  (deserialize h venue s).2 = Ok (length s)
  ∧ deref (deserialize h venue s).1 (length s) = VObj m'.
Proof.
  intros Hv Hto Hrun.
  rewrite (deserialize_plain h s venue m Hv Hto), Hrun. cbn [fst snd].
  split; [done|]. by rewrite deref_new.
Qed.


Lemma get_point_coordinates c :
  get (point c) "coordinates" = VArr [get c "longitude"; get c "latitude"].
Proof. reflexivity. Qed.

Lemma get_labelled lon lat :
  get (labelled lon lat) "longitude" = lon ∧ get (labelled lon lat) "latitude" = lat.
Proof. split; reflexivity. Qed.




(** * The claims *)

(** ** Range bucketer: the claims *)

(** C1 (amended).  For ascending non-negative boundaries [b] and a value
    [v <= b[0]], [getCapacityRange] and [getEntranceFeeRange] do not return
    null: no bucket takes the value, the run reaches the last boundary and
    returns it alone. *)
Theorem below_first_boundary_returns_last h venue cityConf (b : list Q) (v first top : Q) :
  ascending b = true → b !! 0%nat = Some first → (0 <= first)%Q →
  (v <= first)%Q → last b = Some top →
  (VENUE_CAPACITY_RANGES h = b → get venue "capacity" = VNum v →
     getCapacityRange h venue = VNum top)
  ∧ (entranceFeeRanges cityConf = b → get (get venue "fees") "entrance" = VNum v →
     getEntranceFeeRange h venue cityConf = VNum top).
Proof.
  intros Hasc H0 Hfirst Hv Htop. split.
  - intros <- Hcap. rewrite getCapacityRange_reduce, Hcap.
    by apply (range_below_first h _ v first top).
  - intros <- Hfee. rewrite getEntranceFeeRange_reduce, Hfee.
    by apply (range_below_first h _ v first top).
Qed.

(** C4 (amended).  For ascending non-negative boundaries [b] and a value
    [v] with [b[i] < v <= b[i+1]], no earlier bucket takes [v] and both
    bucketers return the pair [[b[i], b[i+1]]]; the comparison is exclusive
    below and inclusive above. *)
Theorem value_in_bucket_returns_pair h venue cityConf (b : list Q) (v first lo hi : Q) (i : nat) :
  ascending b = true → b !! 0%nat = Some first → (0 <= first)%Q →
  b !! i = Some lo → b !! S i = Some hi → (lo < v)%Q → (v <= hi)%Q →
  (∀ j x u, (j < i)%nat → b !! j = Some x → b !! S j = Some u →
            ¬ ((x < v)%Q ∧ (v <= u)%Q))
  ∧ (VENUE_CAPACITY_RANGES h = b → get venue "capacity" = VNum v →
     getCapacityRange h venue = VArr [VNum lo; VNum hi])
  ∧ (entranceFeeRanges cityConf = b → get (get venue "fees") "entrance" = VNum v →
     getEntranceFeeRange h venue cityConf = VArr [VNum lo; VNum hi]).
Proof.
  intros Hasc H0 Hfirst Hlo Hhi Hv1 Hv2. split; [|split].
  - intros j x u Hj Hx Hu. by apply (earlier_bucket_misses b v i lo j x u).
  - intros <- Hcap. rewrite getCapacityRange_reduce, Hcap.
    by apply (range_in_bucket h _ v first i lo hi).
  - intros <- Hfee. rewrite getEntranceFeeRange_reduce, Hfee.
    by apply (range_in_bucket h _ v first i lo hi).
Qed.

(** Boundaries [0, 50, 100] and the value 0: the result is 100, not null. *)
Lemma value_zero_returns_last_boundary :
  VENUE_CAPACITY_RANGES example_host = [0; 50; 100]%Q
  ∧ ascending (VENUE_CAPACITY_RANGES example_host) = true
  ∧ get (VObj {[ "capacity" := VNum 0 ]}) "capacity" = VNum 0
  ∧ getCapacityRange example_host (VObj {[ "capacity" := VNum 0 ]}) = VNum 100
  ∧ getCapacityRange example_host (VObj {[ "capacity" := VNum 0 ]}) ≠ VNull.
Proof. repeat split; try reflexivity. discriminate. Qed.

Lemma below_first_boundary_returns_last_witness :
  getCapacityRange example_host (VObj {[ "capacity" := VNum 0 ]}) = VNum 100.
Proof.
  refine (proj1 (below_first_boundary_returns_last example_host
                   (VObj {[ "capacity" := VNum 0 ]}) amsterdam
                   [0; 50; 100]%Q 0 0 100 _ _ _ _ _) _ _);
    first [reflexivity | lra].
Defined.

(** Boundaries [0, 50, 100] and the value 75: the pair [50, 100]. *)
Lemma value_in_bucket_returns_pair_witness :
  getCapacityRange example_host (VObj {[ "capacity" := VNum 75 ]})
  = VArr [VNum 50; VNum 100].
Proof.
  refine (proj1 (proj2 (value_in_bucket_returns_pair example_host
                   (VObj {[ "capacity" := VNum 75 ]}) amsterdam
                   [0; 50; 100]%Q 75 0 50 100 1 _ _ _ _ _ _ _)) _ _);
    first [reflexivity | lra].
Defined.

(** Ascending boundaries [-10, 0] and the value -5, which lies in the one
    bucket: the zero upper boundary is taken for a missing one and the
    result is -10 alone, not the pair. *)
Lemma zero_upper_boundary_loses_pair :
  let conf := {| currency := VStr "EUR";
                 priceClassRanges := {| coke := []; beer := [] |};
                 entranceFeeRanges := [-10 # 1; 0]%Q |} in
  let venue := VObj {[ "fees" := VObj {[ "entrance" := VNum (-5 # 1) ]} ]} in
  ascending (entranceFeeRanges conf) = true
  ∧ entranceFeeRanges conf !! 0%nat = Some (-10 # 1)%Q
  ∧ entranceFeeRanges conf !! 1%nat = Some 0%Q
  ∧ (-10 # 1 < -5 # 1)%Q ∧ (-5 # 1 <= 0)%Q
  ∧ get (get venue "fees") "entrance" = VNum (-5 # 1)
  ∧ getEntranceFeeRange example_host venue conf = VNum (-10 # 1)
  ∧ getEntranceFeeRange example_host venue conf ≠ VArr [VNum (-10 # 1); VNum 0].
Proof.
  simpl. repeat split; try reflexivity; try lra; try discriminate.
Qed.

(** ** Price class: the claims *)





(** ** The caller's object: the claims *)




(** C3 (amended).  [serialize] on the payload [{name: "X"}] gives the
    document [{name: "X", queryText: "X"}], with these two keys and no
    other: the name is all ASCII and [unidecode] leaves it as it is, in upper
    case. *)
Theorem serialize_name_only h (s : store) :
  serialize h (length s) (s ++ [Plain (VObj {[ "name" := VStr "X" ]})])
  = (s ++ [Plain (VObj {[ "name" := VStr "X"; "queryText" := VStr "X" ]})],
     Ok (length s))
  ∧ dom ({[ "name" := VStr "X"; "queryText" := VStr "X" ]} : gmap string value)
    = {[ "name"; "queryText" ]}.
Proof.
  split; [|reflexivity].
  rewrite serialize_run, deref_new. simpl contents.
  replace (serialize_steps h (VObj {[ "name" := VStr "X" ]}))
    with (VObj ({[ "name" := VStr "X"; "queryText" := VStr "X" ]} : gmap string value), @Ok unit tt)
    by reflexivity.
  cbn [fst snd]. f_equal.
  induction s as [|c s IH]; simpl; [done|]. by f_equal.
Qed.

(** The derived [queryText] of [{name: "X"}] is ["X"], not ["x"]. *)
Lemma serialize_keeps_upper_case :
  let s := [Plain (VObj {[ "name" := VStr "X" ]})] in
  (serialize example_host 0 s).2 = Ok 0%nat
  ∧ get (deref (serialize example_host 0 s).1 0) "queryText" = VStr "X"
  ∧ get (deref (serialize example_host 0 s).1 0) "queryText" ≠ VStr "x".
Proof. intros s. split; [reflexivity|]. split; [reflexivity|]. discriminate. Qed.

(** ** Geo point: the claim *)

(** C7.  [serialize] writes the coordinates [{longitude: lon, latitude:
    lat}] of the location as [{type: "Point", coordinates: [lon, lat]}],
    longitude first, and [deserialize] reads that storage form back to
    [{longitude: lon, latitude: lat}]. *)
Theorem geo_point_encoded_and_decoded h (s : store) (r : nat) m l (lon lat : value) :
  s !! r = Some (Plain (VObj m)) →
  get (VObj m) "location" = VObj l →
  (get (VObj l) "coordinates" = labelled lon lat →
   lookup_succeeds h (VObj m) = true →
   name_normalises h (VObj m) = true →
   (serialize h r s).2 = Ok r
   ∧ get (get (deref (serialize h r s).1 r) "location") "coordinates"
     = VObj {[ "type" := VStr "Point"; "coordinates" := VArr [lon; lat] ]})
  ∧ (get (VObj l) "coordinates"
     = VObj {[ "type" := VStr "Point"; "coordinates" := VArr [lon; lat] ]} →
     truthy (get (VObj m) "toObject") = false →
     images_deserialisable (VObj m) = true →
     ∀ cityConf,
       cityConfig_get h (get (VObj l) "country") (get (VObj l) "city") = Ok cityConf →
       fees_resolved (VObj m) cityConf = true →
       (deserialize h r s).2 = Ok (length s)
       ∧ get (get (deref (deserialize h r s).1 (length s)) "location") "coordinates"
         = labelled lon lat).
Proof.
  intros Hr Hloc. split.
  - intros Hco Hlk Hn.
    destruct (serialize_steps_ok h m (lookup_succeeds_spec _ _ Hlk)
                (name_normalises_spec _ _ Hn))
      as (m' & Hrun & Henc & _).
    destruct (serialize_result h s r m m' Hr Hrun) as (Hok & Hderef & _).
    split; [done|]. rewrite Hderef, Henc.
    + rewrite Hloc. cbn [set]. rewrite get_insert_eq, Hco. reflexivity.
    + rewrite Hloc, Hco. reflexivity.
  - intros Hco Hto Himg cityConf Hconf Hfees.
    assert (truthy (get (VObj l) "coordinates") = true) as Htc by by rewrite Hco.
    destruct (deserialize_steps_ok h m l cityConf Hloc
                (images_deserialisable_spec _ Himg)) as
      (m' & l' & Hrun & Hloc' & _ & _ & Hdec & _); [|done|by apply fees_resolved_spec|].
    { intros _. by rewrite Hco. }
    destruct (deserialize_result h s r m m' Hr Hto Hrun) as [Hok Hderef].
    split; [done|]. rewrite Hderef, Hloc'. simpl.
    rewrite (Hdec Htc lon lat); [done|by rewrite Hco..].
Qed.

(** The coordinates [{longitude: 10, latitude: 55}] are stored as
    [{type: "Point", coordinates: [10, 55]}] and read back as they were. *)
Lemma geo_point_encoded_and_decoded_witness :
  ((serialize example_host 0 [Plain venue_with_point]).2 = Ok 0%nat
   ∧ get (get (deref (serialize example_host 0 [Plain venue_with_point]).1 0)
            "location") "coordinates"
     = VObj {[ "type" := VStr "Point"; "coordinates" := VArr [VNum 10; VNum 55] ]})
  ∧ ((deserialize example_host 0 [Plain venue_stored_point]).2 = Ok 1%nat
     ∧ get (get (deref (deserialize example_host 0 [Plain venue_stored_point]).1 1)
              "location") "coordinates"
       = labelled (VNum 10) (VNum 55)).
Proof.
  split.
  - exact (proj1 (geo_point_encoded_and_decoded example_host [Plain venue_with_point] 0
                    _ _ (VNum 10) (VNum 55) eq_refl eq_refl)
             eq_refl eq_refl eq_refl).
  - exact (proj2 (geo_point_encoded_and_decoded example_host [Plain venue_stored_point] 0
                    _ _ (VNum 10) (VNum 55) eq_refl eq_refl)
             eq_refl eq_refl eq_refl (Some amsterdam) eq_refl eq_refl).
Defined.

(** ** Optional fields: the claim *)

(** C8.  A capacity, fees or prices that are not there (or not truthy)
    raise no error and leave the derived field out: [deserialize] returns
    without a new [capacityRange] when there is no capacity and without a
    new [currency] or [entranceFeeRange] when there are no fees, and
    [serialize] returns without a new [priceClass] when there are no
    prices. *)
Theorem absent_fields_skip_derived h (s : store) (r : nat) m :
  s !! r = Some (Plain (VObj m)) →
  (∀ l cityConf,
     truthy (get (VObj m) "toObject") = false →
     get (VObj m) "location" = VObj l →
     images_deserialisable (VObj m) = true →
     point_stored (VObj l) = true →
     cityConfig_get h (get (VObj l) "country") (get (VObj l) "city") = Ok cityConf →
     fees_resolved (VObj m) cityConf = true →
     (deserialize h r s).2 = Ok (length s)
     ∧ (truthy (get (VObj m) "capacity") = false →
        own (deref (deserialize h r s).1 (length s)) "capacityRange"
        = m !! "capacityRange")
     ∧ (truthy (get (VObj m) "fees") = false →
        own (deref (deserialize h r s).1 (length s)) "currency" = m !! "currency"
        ∧ own (deref (deserialize h r s).1 (length s)) "entranceFeeRange"
          = m !! "entranceFeeRange"))
  ∧ (lookup_succeeds h (VObj m) = true →
     name_normalises h (VObj m) = true →
     (serialize h r s).2 = Ok r
     ∧ (truthy (get (VObj m) "prices") = false →
        own (deref (serialize h r s).1 r) "priceClass" = m !! "priceClass")).
Proof.
  intros Hr. split.
  - intros l cityConf Hto Hloc Himg Hpt Hconf Hfees.
    destruct (deserialize_steps_ok h m l cityConf Hloc
                (images_deserialisable_spec _ Himg) (point_stored_spec _ Hpt)
                Hconf (fees_resolved_spec _ _ Hfees))
      as (m' & l' & Hrun & _ & _ & _ & _ & Hcap & Hfee).
    destruct (deserialize_result h s r m m' Hr Hto Hrun) as [Hok Hderef].
    rewrite Hderef. done.
  - intros Hlk Hn.
    destruct (serialize_steps_ok h m (lookup_succeeds_spec _ _ Hlk)
                (name_normalises_spec _ _ Hn))
      as (m' & Hrun & _ & _ & Hprice & _).
    destruct (serialize_result h s r m m' Hr Hrun) as (Hok & Hderef & _).
    rewrite Hderef. done.
Qed.

(** A venue with a name and a location only: both functions return, and
    no derived field but [queryText] appears. *)
Lemma absent_fields_skip_derived_witness :
  ((deserialize example_host 0 [Plain venue_amsterdam]).2 = Ok 1%nat
   ∧ own (deref (deserialize example_host 0 [Plain venue_amsterdam]).1 1) "capacityRange" = None
   ∧ own (deref (deserialize example_host 0 [Plain venue_amsterdam]).1 1) "currency" = None
   ∧ own (deref (deserialize example_host 0 [Plain venue_amsterdam]).1 1) "entranceFeeRange" = None)
  ∧ ((serialize example_host 0 [Plain venue_amsterdam]).2 = Ok 0%nat
     ∧ own (deref (serialize example_host 0 [Plain venue_amsterdam]).1 0) "priceClass" = None).
Proof.
  destruct (absent_fields_skip_derived example_host [Plain venue_amsterdam] 0 _ eq_refl)
    as [Hde Hse].
  split.
  - destruct (Hde _ (Some amsterdam) eq_refl eq_refl eq_refl eq_refl eq_refl eq_refl)
      as (Hok & Hcap & Hfee).
    split; [exact Hok|]. split; [exact (Hcap eq_refl)|]. exact (Hfee eq_refl).
  - destruct (Hse eq_refl eq_refl) as [Hok Hprice].
    split; [exact Hok|]. exact (Hprice eq_refl).
Defined.

(** ** Documents without a location: the claim *)

(** C10.  [deserialize] reads [venue.location.coordinates] and looks the
    city configuration up on every call: a document whose location is not
    there (or is null) makes it throw a TypeError, and a lookup that fails
    makes it throw whatever capacity and fees the document has or lacks. *)
Theorem deserialize_needs_location h (s : store) (venue : nat) :
  (nullish (get (deref s venue) "location") = true →
   ∃ s', deserialize h venue s = (s', Throw TypeError))
  ∧ (∀ m l e,
       s !! venue = Some (Plain (VObj m)) →
       truthy (get (VObj m) "toObject") = false →
       get (VObj m) "location" = VObj l →
       images_deserialisable (VObj m) = true →
       point_stored (VObj l) = true →
       cityConfig_get h (get (VObj l) "country") (get (VObj l) "city") = Throw e →
       ∃ s', deserialize h venue s = (s', Throw e)).
Proof.
  split.
  - intros Hloc. unfold deserialize, snapshot, cloneDeep. unfold deref in Hloc.
    destruct (s !! venue) as [[o|o]|]; [| |eauto]; simpl in Hloc.
    + destruct (member o "toObject") as [toObject|e] eqn:Hm.
      * destruct (truthy toObject); [eauto|].
        destruct (deserialize_steps_without_location h o Hloc) as [o' ->]. eauto.
      * destruct o; simpl in Hm; try done; simplify_eq; eauto.
    + destruct (deserialize_steps_without_location h o Hloc) as [o' ->]. eauto.
  - intros m l e Hv Hto Hloc Himg Hpt Hconf.
    destruct (deserialize_steps_lookup_fails h m l e Hloc
                (images_deserialisable_spec _ Himg) (point_stored_spec _ Hpt) Hconf)
      as [o' Hrun].
    rewrite (deserialize_plain h s venue m Hv Hto), Hrun. eauto.
Qed.

(** A stored venue without a location, and one whose city has no
    configuration and that has neither capacity nor fees. *)
Lemma deserialize_needs_location_witness :
  (∃ s', deserialize example_host 0 [Plain venue_name_only] = (s', Throw TypeError))
  ∧ (∃ s', deserialize example_host 0 [Plain venue_utrecht] = (s', Throw HostError)).
Proof.
  split.
  - exact (proj1 (deserialize_needs_location example_host [Plain venue_name_only] 0)
             eq_refl).
  - exact (proj2 (deserialize_needs_location example_host [Plain venue_utrecht] 0)
             _ _ HostError eq_refl eq_refl eq_refl eq_refl eq_refl eq_refl).
Defined.

(** ** Round trip: the claim *)




(** * Further properties *)

(** ** The range bucketer on any table and any value *)



Lemma open_prefix_later_nonzero h (b : list Q) v n :
  later_nonzero b = true → (n < length b)%nat →
  (∀ j x u, (j < n)%nat → b !! j = Some x → b !! S j = Some u →
            js_gt h v x && js_le h v u = false) →
  truthy (reduce_from (range_step h b v) 0 (take n b) VNull) = false.
Proof.
  intros Hnz Hn Hout.
  apply (reduce_from_invariant (range_step h b v) (fun a => truthy a = false)); [done|].
  intros j x a Hj Ha. simpl.
  apply lookup_take_Some in Hj as [Hj Hjn].
  destruct (lookup_lt_is_Some_2 b (S j)) as [u Hu]; [lia|].
  unfold range_step. rewrite Ha.
  replace (j + 1)%nat with (S j) by lia. rewrite Hu.
  pose proof (later_nonzero_lookup b j u Hnz Hu) as Hu0.
  apply truthy_num in Hu0. rewrite Hu0. simpl negb.
  by rewrite (Hout j x u Hjn Hj Hu).
Qed.

(** When no bucket holds the value, the last boundary is returned. *)
Lemma range_no_bucket h (b : list Q) v top :
  later_nonzero b = true → last b = Some top →
  (∀ j x u, b !! j = Some x → b !! S j = Some u →
            js_gt h v x && js_le h v u = false) →
  reduce (range_step h b v) b VNull = VNum top.
Proof.
  intros Hnz Htop Hout. rewrite last_lookup in Htop.
  assert (0 < length b)%nat as Hlen.
  { destruct b; [done|simpl; lia]. }
  rewrite (reduce_at _ (pred (length b)) top b VNull Htop).
  replace (S (pred (length b))) with (length b) by lia.
  rewrite drop_all. simpl. unfold range_step at 1.
  rewrite open_prefix_later_nonzero; [|done|lia|by intros j x u _; apply Hout].
  replace (pred (length b) + 1)%nat with (length b) by lia.
  by rewrite (lookup_ge_None_2 b (length b)) by lia.
Qed.



(** X2.  For a table with no zero after its first boundary (any ascending
    table of non-negative boundaries) and a value above every boundary, both
    bucketers return the last boundary alone. *)
Theorem value_above_all_returns_last h venue cityConf (b : list Q) (v top : Q) :
  later_nonzero b = true → last b = Some top →
  (∀ x, x ∈ b → (x < v)%Q) →
  (VENUE_CAPACITY_RANGES h = b → get venue "capacity" = VNum v →
     getCapacityRange h venue = VNum top)
  ∧ (entranceFeeRanges cityConf = b → get (get venue "fees") "entrance" = VNum v →
     getEntranceFeeRange h venue cityConf = VNum top).
Proof.
  intros Hnz Htop Habove.
  assert (∀ j x u, b !! j = Some x → b !! S j = Some u →
                   js_gt h (VNum v) x && js_le h (VNum v) u = false) as Hout.
  { intros j x u Hx Hu. apply andb_false_iff. right.
    destruct (js_le h (VNum v) u) eqn:Hle; [|done].
    apply js_le_num in Hle.
    apply list_elem_of_lookup_2, Habove in Hu. lra. }
  split.
  - intros <- Hcap. rewrite getCapacityRange_reduce, Hcap. by apply range_no_bucket.
  - intros <- Hfee. rewrite getEntranceFeeRange_reduce, Hfee. by apply range_no_bucket.
Qed.

Lemma value_above_all_returns_last_witness :
  getCapacityRange example_host (VObj {[ "capacity" := VNum 150 ]}) = VNum 100.
Proof.
  refine (proj1 (value_above_all_returns_last example_host
                   (VObj {[ "capacity" := VNum 150 ]}) amsterdam
                   [0; 50; 100]%Q 150 100 eq_refl eq_refl _) eq_refl eq_refl).
  intros x Hx.
  repeat (apply elem_of_cons in Hx as [-> | Hx]; [lra|]).
  by apply elem_of_nil in Hx.
Defined.

(** ** The price class on any table and any price *)








(** ** deserializeImage *)



(** X6.  [deserializeImage] is not idempotent: applied to its own result,
    where [_id] is gone, it sets [id] to [undefined]. *)
Theorem deserializeImage_twice_loses_identifier m :
  truthy (get (VObj m) "toObject") = false →
  ∃ once twice,
    deserializeImage (VObj m) = Ok once
    ∧ own once "id" = Some (get (VObj m) "_id")
    ∧ deserializeImage once = Ok twice
    ∧ own twice "id" = Some VUndef.
Proof.
  intros Ht. unfold deserializeImage, cloneDeep, deserializeImage_steps.
  cbn [member]. rewrite Ht. run_step.
  eexists _, _. split; [reflexivity|].
  split; [cbn [own]; by rewrite lookup_delete_ne, lookup_insert_eq|].
  cbn [member]. norm_get. rewrite Ht. run_step.
  split; [reflexivity|]. cbn [own].
  by rewrite lookup_delete_ne, lookup_insert_eq.
Qed.

Lemma deserializeImage_twice_loses_identifier_witness :
  ∃ once twice,
    deserializeImage image_png = Ok once
    ∧ own once "id" = Some (VStr "i1")
    ∧ deserializeImage once = Ok twice
    ∧ own twice "id" = Some VUndef.
Proof.
  exact (deserializeImage_twice_loses_identifier
           {[ "_id" := VStr "i1"; "mime" := VStr "image/png" ]} eq_refl).
Defined.

(** ** deserialize: what every view has and lacks *)

Ltac frame_rest K :=
  lazymatch goal with
  | |- context [own (?c (VObj ?m0)).1 _] =>
      let Ht := fresh "Ht" in
      assert (touches K c) as Ht by (repeat touches_step);
      rewrite !(Ht (VObj m0)) by key_solver
  end.

Lemma reshape_hides m :
  own (reshape (VObj m)).1 "_id" = None
  ∧ own (reshape (VObj m)).1 "sourceId" = None
  ∧ own (reshape (VObj m)).1 "queryText" = None
  ∧ own (reshape (VObj m)).1 "id" = Some (get (VObj m) "_id").
Proof.
  unfold reshape. run_step. frame_rest ["images"; "location"].
  cbn [own]. norm_lookup. done.
Qed.

Lemma deserialize_steps_after_reshape h o k :
  k ∉ ["capacityRange"; "currency"; "entranceFeeRange"] →
  own (deserialize_steps h o).1 k = own (reshape o).1 k.
Proof.
  intros Hk. unfold deserialize_steps. unfold bind at 1.
  destruct (reshape o) as [o1 [[]|e]]; [|done]. cbn [fst].
  assert (touches ["capacityRange"; "currency"; "entranceFeeRange"]
            (bind (read "location") (fun location =>
             bind (lift (member location "country")) (fun country =>
             bind (lift (member location "city")) (fun city =>
             bind (lift (cityConfig_get h country city)) (fun cityConf =>
               set_computed_fields h cityConf)))))) as Ht.
  { unfold set_computed_fields. repeat touches_step. }
  by apply Ht.
Qed.

(** A call of [deserialize] that returns was made on an object. *)
Lemma deserialize_returns h (s : store) venue s' r :
  deserialize h venue s = (s', Ok r) →
  ∃ m, deref s venue = VObj m
    ∧ deserialize_steps h (VObj m) = (deref s' r, Ok tt)
    ∧ r = length s
    ∧ s' = s ++ [Plain (deref s' r)].
Proof.
  unfold deserialize, snapshot, deref, cloneDeep. intros Hrun.
  assert (∀ o, (let (o', res) := deserialize_steps h o in
                match res with
                | Ok _ => (s ++ [Plain o'], Ok (length s))
                | Throw e => (s ++ [Plain o'], Throw e)
                end) = (s', Ok r) →
               ∃ m, o = VObj m
                 ∧ deserialize_steps h (VObj m)
                   = (match s' !! r with Some c => contents c | None => VUndef end, Ok tt)
                 ∧ r = length s
                 ∧ s' = s ++ [Plain (match s' !! r with
                                     | Some c => contents c
                                     | None => VUndef
                                     end)]) as Hsteps.
  { intros o Ho.
    destruct (deserialize_steps h o) as [o' [[]|e]] eqn:Hd; [|done].
    injection Ho as <- <-. rewrite list_lookup_middle by done. simpl.
    destruct o as [| | | | | | |m];
      try (match type of Hd with
           | deserialize_steps h ?o = _ =>
               destruct (deserialize_steps_without_location h o eq_refl)
                 as [o'' Hthrow]
           end; congruence).
    by exists m. }
  destruct (s !! venue) as [[o|o]|]; [| |done].
  - destruct (member o "toObject") as [toObject|e] eqn:Hm; [|done].
    destruct (truthy toObject); [done|].
    simpl. by apply Hsteps.
  - simpl. by apply Hsteps.
Qed.

Lemma deserialize_hides h (s : store) (venue : nat) s' r :
  deserialize h venue s = (s', Ok r) →
  own (deref s' r) "_id" = None
  ∧ own (deref s' r) "sourceId" = None
  ∧ own (deref s' r) "queryText" = None
  ∧ own (deref s' r) "id" = Some (get (deref s venue) "_id").
Proof.
  intros Hrun.
  destruct (deserialize_returns h s venue s' r Hrun) as (m & Hm & Hsteps & _).
  rewrite Hm.
  assert (deref s' r = (deserialize_steps h (VObj m)).1) as -> by by rewrite Hsteps.
  rewrite !deserialize_steps_after_reshape by key_solver.
  apply reshape_hides.
Qed.

(** X7.  A view that [deserialize] returns never has [_id], [sourceId] or
    [queryText], and its [id] holds what [_id] held in the document
    ([undefined] when the document had none). *)
Theorem deserialize_hides_internal_fields h (s : store) (venue : nat) s' r :
  deserialize h venue s = (s', Ok r) →
  own (deref s' r) "_id" = None
  ∧ own (deref s' r) "sourceId" = None
  ∧ own (deref s' r) "queryText" = None
  ∧ own (deref s' r) "id" = Some (get (deref s venue) "_id").
Proof.
  intros Hrun.
  destruct (deserialize_returns h s venue s' r Hrun) as (m & Hm & Hsteps & _).
  rewrite Hm.
  assert (deref s' r = (deserialize_steps h (VObj m)).1) as -> by by rewrite Hsteps.
  rewrite !deserialize_steps_after_reshape by key_solver.
  apply reshape_hides.
Qed.

Lemma deserialize_hides_internal_fields_witness :
  own (deref (deserialize example_host 0 [Live venue_full]).1 1) "_id" = None
  ∧ own (deref (deserialize example_host 0 [Live venue_full]).1 1) "sourceId" = None
  ∧ own (deref (deserialize example_host 0 [Live venue_full]).1 1) "queryText" = None
  ∧ own (deref (deserialize example_host 0 [Live venue_full]).1 1) "id" = Some (VStr "v1").
Proof.
  exact (deserialize_hides_internal_fields example_host [Live venue_full] 0
           (deserialize example_host 0 [Live venue_full]).1 1 eq_refl).
Defined.

(** X8.  Between a document and the view that [deserialize] returns, no
    property differs but [id], [_id], [sourceId], [queryText], [images],
    [location], [capacityRange], [currency] and [entranceFeeRange]. *)
Theorem deserialize_changes_listed_fields_only h (s : store) (venue : nat) s' r k :
  deserialize h venue s = (s', Ok r) →
  k ∉ ["id"; "_id"; "sourceId"; "queryText"; "images"; "location";
       "capacityRange"; "currency"; "entranceFeeRange"] →
  own (deref s' r) k = own (deref s venue) k.
Proof.
  intros Hrun Hk.
  destruct (deserialize_returns h s venue s' r Hrun) as (m & Hm & Hsteps & _).
  rewrite Hm.
  pose proof (deserialize_steps_touches h (VObj m) k Hk) as Hframe.
  by rewrite Hsteps in Hframe.
Qed.

Lemma deserialize_changes_listed_fields_only_witness :
  own (deref (deserialize example_host 0 [Live venue_full]).1 1) "name"
  = own (deref [Live venue_full] 0) "name".
Proof.
  refine (deserialize_changes_listed_fields_only example_host [Live venue_full] 0
            (deserialize example_host 0 [Live venue_full]).1 1 "name" eq_refl _).
  key_solver.
Defined.

(** X9.  Whether it returns or throws, [serialize] leaves every property
    of the payload as it was but [id], [_id], [priceClass], [location] and
    [queryText]. *)
Theorem serialize_changes_listed_fields_only h (s : store) (data : nat) k :
  k ∉ ["id"; "_id"; "priceClass"; "location"; "queryText"] →
  own (deref (serialize h data s).1 data) k = own (deref s data) k.
Proof.
  intros Hk. rewrite serialize_run. cbn [fst]. unfold deref at 1.
  rewrite list_lookup_alter_eq. unfold deref at 2.
  destruct (s !! data) as [c|] eqn:Hc; cbn [fmap option_fmap option_map]; [|done].
  rewrite contents_with_contents, (deref_lookup s data c Hc).
  by apply serialize_steps_touches.
Qed.

Lemma serialize_changes_listed_fields_only_witness :
  own (deref (serialize example_host 0 [Plain venue_full]).1 0) "sourceId"
  = own (deref [Plain venue_full] 0) "sourceId".
Proof.
  refine (serialize_changes_listed_fields_only example_host [Plain venue_full] 0
            "sourceId" _).
  key_solver.
Defined.

(** ** deserialize: the computed fields, the images and a second call *)

Lemma getCapacityRange_capacity h venue venue' :
  get venue "capacity" = get venue' "capacity" →
  getCapacityRange h venue = getCapacityRange h venue'.
Proof. intros Hc. unfold getCapacityRange. by rewrite Hc. Qed.

Lemma getEntranceFeeRange_fees h venue venue' cityConf :
  get venue "fees" = get venue' "fees" →
  getEntranceFeeRange h venue cityConf = getEntranceFeeRange h venue' cityConf.
Proof. intros Hf. unfold getEntranceFeeRange. by rewrite Hf. Qed.

Lemma set_computed_fields_present h cityConf m :
  (truthy (get (VObj m) "fees") = true → is_Some cityConf) →
  ∃ m', set_computed_fields h cityConf (VObj m) = (VObj m', Ok tt)
    ∧ (truthy (get (VObj m) "capacity") = true →
       m' !! "capacityRange" = Some (getCapacityRange h (VObj m)))
    ∧ (truthy (get (VObj m) "fees") = true →
       ∀ conf, cityConf = Some conf →
         m' !! "currency" = Some (currency conf)
         ∧ (truthy (get (get (VObj m) "fees") "entrance") = true →
            m' !! "entranceFeeRange" = Some (getEntranceFeeRange h (VObj m) conf))
         ∧ (truthy (get (get (VObj m) "fees") "entrance") = false →
            m' !! "entranceFeeRange" = m !! "entranceFeeRange")).
Proof.
  intros Hconf. unfold set_computed_fields. run_step.
  split_truthy; run_step; split_truthy; run_step.
  all: try (destruct Hconf as [conf0 ->]; [done|]; run_step;
            rewrite member_not_nullish by (by apply truthy_not_nullish); run_step;
            split_truthy; run_step).
  all: eexists; (split; [reflexivity|]).
  all: split; [intros; try congruence; by norm_lookup|].
  all: intros; try congruence.
  all: match goal with H : Some _ = Some _ |- _ => injection H as <- end.
  all: norm_lookup; split; [done|].
  all: split; intros; try congruence; try done.
  all: f_equal; apply getEntranceFeeRange_fees; by norm_get.
Qed.

Lemma set_computed_fields_no_config h m :
  truthy (get (VObj m) "fees") = true →
  ∃ o', set_computed_fields h None (VObj m) = (o', Throw TypeError).
Proof.
  intros Hf. unfold set_computed_fields. run_step.
  split_truthy; run_step; rewrite Hf; run_step; eauto.
Qed.

Lemma deserialize_steps_computed h m l cityConf :
  get (VObj m) "location" = VObj l →
  images_deserialisable (VObj m) = true →
  point_stored (VObj l) = true →
  cityConfig_get h (get (VObj l) "country") (get (VObj l) "city") = Ok cityConf →
  fees_resolved (VObj m) cityConf = true →
  ∃ m', deserialize_steps h (VObj m) = (VObj m', Ok tt)
    ∧ (truthy (get (VObj m) "capacity") = true →
       m' !! "capacityRange" = Some (getCapacityRange h (VObj m)))
    ∧ (truthy (get (VObj m) "fees") = true →
       ∃ conf, cityConf = Some conf
         ∧ m' !! "currency" = Some (currency conf)
         ∧ (truthy (get (get (VObj m) "fees") "entrance") = true →
            m' !! "entranceFeeRange" = Some (getEntranceFeeRange h (VObj m) conf))).
Proof.
  intros Hloc Himg Hpt Hconf Hfees.
  destruct (reshape_ok m l Hloc (images_deserialisable_spec _ Himg)
              (point_stored_spec _ Hpt))
    as (m1 & l1 & Hrun & Hloc1 & Hsame & _).
  pose proof (touches_object _ _ _ _ _ reshape_touches Hrun) as Hframe.
  assert (get (VObj m1) "fees" = get (VObj m) "fees") as Hf1.
  { simpl. rewrite Hframe; [done|key_solver]. }
  assert (get (VObj m1) "capacity" = get (VObj m) "capacity") as Hc1.
  { simpl. rewrite Hframe; [done|key_solver]. }
  destruct (set_computed_fields_present h cityConf m1)
    as (m2 & Hrun2 & Hcap & Hfee).
  { rewrite Hf1. by apply fees_resolved_spec. }
  exists m2. split.
  { unfold deserialize_steps. rewrite (bind_run _ _ _ _ _ Hrun). run_step.
    rewrite Hloc1. run_step.
    assert (get (VObj l1) "country" = get (VObj l) "country") as ->.
    { simpl. by rewrite Hsame. }
    assert (get (VObj l1) "city" = get (VObj l) "city") as ->.
    { simpl. by rewrite Hsame. }
    rewrite Hconf. run_step. done. }
  rewrite Hc1, Hf1 in *. split.
  - intros Ht. rewrite (Hcap Ht). f_equal. by apply getCapacityRange_capacity.
  - intros Ht. destruct (fees_resolved_spec _ _ Hfees Ht) as [conf ->].
    destruct (Hfee Ht conf eq_refl) as (Hcur & Hent & _).
    exists conf. split; [done|]. split; [done|].
    intros He. rewrite (Hent He). f_equal. by apply getEntranceFeeRange_fees.
Qed.

(** X10.  For a document that [deserialize] accepts, a truthy capacity
    makes the view carry [capacityRange], the bucket of that capacity, and
    truthy fees make it carry the [currency] of the city configuration and,
    when the entrance fee is truthy, [entranceFeeRange], the bucket of that
    fee; a value of these properties in the document itself is overwritten. *)
Theorem deserialize_attaches_computed_fields h (s : store) (r : nat) m l cityConf :
  s !! r = Some (Plain (VObj m)) →
  truthy (get (VObj m) "toObject") = false →
  get (VObj m) "location" = VObj l →
  images_deserialisable (VObj m) = true →
  point_stored (VObj l) = true →
  cityConfig_get h (get (VObj l) "country") (get (VObj l) "city") = Ok cityConf →
  fees_resolved (VObj m) cityConf = true →
  (deserialize h r s).2 = Ok (length s)
  ∧ (truthy (get (VObj m) "capacity") = true →
     own (deref (deserialize h r s).1 (length s)) "capacityRange"
     = Some (getCapacityRange h (VObj m)))
  ∧ (truthy (get (VObj m) "fees") = true →
     ∃ conf, cityConf = Some conf
       ∧ own (deref (deserialize h r s).1 (length s)) "currency" = Some (currency conf)
       ∧ (truthy (get (get (VObj m) "fees") "entrance") = true →
          own (deref (deserialize h r s).1 (length s)) "entranceFeeRange"
          = Some (getEntranceFeeRange h (VObj m) conf))).
Proof.
  intros Hr Hto Hloc Himg Hpt Hconf Hfees.
  destruct (deserialize_steps_computed h m l cityConf Hloc Himg Hpt Hconf Hfees)
    as (m' & Hrun & Hcap & Hfee).
  destruct (deserialize_result h s r m m' Hr Hto Hrun) as [Hok Hderef].
  rewrite Hderef. done.
Qed.

Lemma deserialize_attaches_computed_fields_witness :
  own (deref (deserialize example_host 0 [Plain venue_full]).1 1) "capacityRange"
  = Some (VArr [VNum 50; VNum 100])
  ∧ own (deref (deserialize example_host 0 [Plain venue_full]).1 1) "currency"
    = Some (VStr "EUR")
  ∧ own (deref (deserialize example_host 0 [Plain venue_full]).1 1) "entranceFeeRange"
    = Some (VArr [VNum 5; VNum 10]).
Proof.
  destruct (deserialize_attaches_computed_fields example_host [Plain venue_full] 0
              _ _ (Some amsterdam) eq_refl eq_refl eq_refl eq_refl eq_refl eq_refl eq_refl)
    as (_ & Hcap & Hfee).
  split; [exact (Hcap eq_refl)|].
  destruct (Hfee eq_refl) as (conf & Hconf & Hcur & Hent).
  injection Hconf as <-.
  split; [exact Hcur|]. exact (Hent eq_refl).
Defined.

(** X11.  Fees in a document whose city configuration the lookup returns
    as [undefined] make [deserialize] throw a TypeError: the currency is read
    from the configuration without a test. *)
Theorem deserialize_fees_need_configuration h (s : store) (r : nat) m l :
  s !! r = Some (Plain (VObj m)) →
  truthy (get (VObj m) "toObject") = false →
  get (VObj m) "location" = VObj l →
  images_deserialisable (VObj m) = true →
  point_stored (VObj l) = true →
  cityConfig_get h (get (VObj l) "country") (get (VObj l) "city") = Ok None →
  truthy (get (VObj m) "fees") = true →
  ∃ s', deserialize h r s = (s', Throw TypeError).
Proof.
  intros Hr Hto Hloc Himg Hpt Hconf Hfees.
  destruct (reshape_ok m l Hloc (images_deserialisable_spec _ Himg)
              (point_stored_spec _ Hpt))
    as (m1 & l1 & Hrun & Hloc1 & Hsame & _).
  pose proof (touches_object _ _ _ _ _ reshape_touches Hrun) as Hframe.
  destruct (set_computed_fields_no_config h m1) as [o' Hthrow].
  { simpl. rewrite Hframe; [done|key_solver]. }
  rewrite (deserialize_plain h s r m Hr Hto).
  assert (deserialize_steps h (VObj m) = (o', Throw TypeError)) as ->; [|eauto].
  unfold deserialize_steps. rewrite (bind_run _ _ _ _ _ Hrun). run_step.
  rewrite Hloc1. run_step.
  assert (get (VObj l1) "country" = get (VObj l) "country") as ->.
  { simpl. by rewrite Hsame. }
  assert (get (VObj l1) "city" = get (VObj l) "city") as ->.
  { simpl. by rewrite Hsame. }
  rewrite Hconf. run_step. done.
Qed.

Lemma deserialize_fees_need_configuration_witness :
  ∃ s', deserialize host_without_cities 0 [Plain venue_full] = (s', Throw TypeError).
Proof.
  exact (deserialize_fees_need_configuration host_without_cities [Plain venue_full] 0
           _ _ eq_refl eq_refl eq_refl eq_refl eq_refl eq_refl eq_refl).
Defined.

(** ** deserialize: the images, and a view given to it again *)

Lemma map_elements_Forall2 f l l' :
  map_elements f l = Ok l' → Forall2 (fun x y => f x = Ok y) l l'.
Proof.
  revert l'. induction l as [|x l IH]; simpl; intros l' Hl.
  - injection Hl as <-. constructor.
  - destruct (f x) as [y|e] eqn:Hx; [|done].
    destruct (map_elements f l) as [ys|e]; [|done].
    injection Hl as <-. constructor; [done|]. by apply IH.
Qed.

Lemma reshape_images_mapped m mapped :
  truthy (get (VObj m) "images") = true →
  array_map deserializeImage (get (VObj m) "images") = Ok mapped →
  own (reshape (VObj m)).1 "images" = Some mapped.
Proof.
  intros Hi Hmap. unfold reshape. run_step. rewrite Hi, Hmap. run_step.
  destruct (member (get (VObj m) "location") "coordinates");
    [frame_rest ["location"]|]; cbn [fst own]; by norm_lookup.
Qed.

Lemma reshape_images_absent m :
  truthy (get (VObj m) "images") = false →
  own (reshape (VObj m)).1 "images" = m !! "images".
Proof.
  intros Hi. unfold reshape. run_step. rewrite Hi. run_step.
  destruct (member (get (VObj m) "location") "coordinates");
    [frame_rest ["location"]|]; cbn [fst own]; by norm_lookup.
Qed.

Lemma reshape_images_throw m e :
  truthy (get (VObj m) "images") = true →
  array_map deserializeImage (get (VObj m) "images") = Throw e →
  ∃ o', reshape (VObj m) = (o', Throw e).
Proof.
  intros Hi Hmap. unfold reshape. run_step. rewrite Hi, Hmap. run_step. eauto.
Qed.

Lemma reshape_bad_point m l :
  get (VObj m) "location" = VObj l →
  truthy (get (VObj l) "coordinates") = true →
  nullish (get (get (VObj l) "coordinates") "coordinates") = true →
  ∃ o', reshape (VObj m) = (o', Throw TypeError).
Proof.
  intros Hloc Hc Hinner. unfold reshape. run_step.
  destruct (truthy (get (VObj m) "images")).
  - destruct (array_map deserializeImage (get (VObj m) "images")) as [mapped|e] eqn:Hmap.
    + run_step. rewrite Hloc. run_step. rewrite Hc.
      rewrite member_not_nullish by (by apply truthy_not_nullish). run_step.
      destruct (get (get (VObj l) "coordinates") "coordinates"); try done;
        cbn; eauto.
    + run_step. rewrite (array_map_error _ _ Hmap). eauto.
  - run_step. rewrite Hloc. run_step. rewrite Hc.
    rewrite member_not_nullish by (by apply truthy_not_nullish). run_step.
    destruct (get (get (VObj l) "coordinates") "coordinates"); try done;
      cbn; eauto.
Qed.

Lemma deserialize_steps_reshape h o o' :
  deserialize_steps h o = (o', Ok tt) → ∃ o1, reshape o = (o1, Ok tt).
Proof.
  unfold deserialize_steps. unfold bind at 1.
  destruct (reshape o) as [o1 [[]|e]]; [eauto|done].
Qed.

Lemma deserialize_steps_reshape_throws h o o' e :
  reshape o = (o', Throw e) → deserialize_steps h o = (o', Throw e).
Proof.
  intros Hrun. unfold deserialize_steps. by rewrite (bind_throw _ _ _ _ _ Hrun).
Qed.

(** The location of a document with a geo point, after the statements of
    [deserialize] returned. *)
Lemma deserialize_steps_point h m o' :
  deserialize_steps h (VObj m) = (o', Ok tt) →
  truthy (get (get (VObj m) "location") "coordinates") = true →
  ∃ l' lon lat, own o' "location" = Some (VObj l')
    ∧ l' !! "coordinates" = Some (labelled lon lat).
Proof.
  intros Hrun Hc.
  destruct (get (VObj m) "location") as [| | | | | | |l] eqn:Hloc; try done.
  destruct (deserialize_steps_reshape h _ _ Hrun) as [o1 Hreshape].
  assert (truthy (get (VObj m) "images") = true →
          ∃ mapped, array_map deserializeImage (get (VObj m) "images") = Ok mapped)
    as Himg.
  { intros Hi.
    destruct (array_map deserializeImage (get (VObj m) "images")) as [mapped|e] eqn:Hmap;
      [eauto|].
    destruct (reshape_images_throw m e Hi Hmap) as [o2 Hthrow]. congruence. }
  assert (nullish (get (get (VObj l) "coordinates") "coordinates") = false) as Hinner.
  { destruct (nullish (get (get (VObj l) "coordinates") "coordinates")) eqn:Hn; [|done].
    destruct (reshape_bad_point m l Hloc Hc Hn) as [o2 Hthrow]. congruence. }
  destruct (reshape_ok m l Hloc Himg (fun _ => Hinner))
    as (m1 & l1 & Hrun1 & Hloc1 & _ & _ & Hdec).
  destruct (item_not_nullish _ 0 Hinner) as [lon Hlon].
  destruct (item_not_nullish _ 1 Hinner) as [lat Hlat].
  exists l1, lon, lat. split; [|exact (Hdec Hc lon lat Hlon Hlat)].
  assert (o' = (deserialize_steps h (VObj m)).1) as -> by (by rewrite Hrun).
  rewrite deserialize_steps_after_reshape by key_solver.
  rewrite Hrun1. cbn [fst own]. simpl in Hloc1.
  destruct (m1 !! "location") as [v|]; simpl in Hloc1; congruence.
Qed.

(** X12.  When [deserialize] returns, truthy [images] of the document were
    an array, and the view holds the array of the elements' images under
    [deserializeImage], in the same order; falsy [images] are left as they
    were. *)
Theorem deserialize_maps_images h (s : store) (venue : nat) s' r :
  deserialize h venue s = (s', Ok r) →
  if truthy (get (deref s venue) "images")
  then ∃ l l', get (deref s venue) "images" = VArr l
         ∧ own (deref s' r) "images" = Some (VArr l')
         ∧ Forall2 (fun x y => deserializeImage x = Ok y) l l'
  else own (deref s' r) "images" = own (deref s venue) "images".
Proof.
  intros Hrun.
  destruct (deserialize_returns h s venue s' r Hrun) as (m & Hm & Hsteps & _).
  rewrite Hm.
  assert (deref s' r = (deserialize_steps h (VObj m)).1) as -> by (by rewrite Hsteps).
  rewrite deserialize_steps_after_reshape by key_solver.
  destruct (truthy (get (VObj m) "images")) eqn:Hi.
  - destruct (array_map deserializeImage (get (VObj m) "images")) as [mapped|e] eqn:Hmap.
    + rewrite (reshape_images_mapped m mapped Hi Hmap).
      unfold array_map in Hmap.
      destruct (get (VObj m) "images") as [| | | | | |l|]; try done.
      destruct (map_elements deserializeImage l) as [l'|] eqn:Hl; [|done].
      injection Hmap as <-. exists l, l'.
      split; [done|]. split; [done|]. by apply map_elements_Forall2.
    + destruct (reshape_images_throw m e Hi Hmap) as [o' Hthrow].
      rewrite (deserialize_steps_reshape_throws h _ _ _ Hthrow) in Hsteps. done.
  - by apply reshape_images_absent.
Qed.

Lemma deserialize_maps_images_witness :
  ∃ l l', get (deref [Live venue_full] 0) "images" = VArr l
    ∧ own (deref (deserialize example_host 0 [Live venue_full]).1 1) "images"
      = Some (VArr l')
    ∧ Forall2 (fun x y => deserializeImage x = Ok y) l l'.
Proof.
  exact (deserialize_maps_images example_host [Live venue_full] 0
           (deserialize example_host 0 [Live venue_full]).1 1 eq_refl).
Defined.

(** X13.  A view with a geo point cannot be given to [deserialize] again:
    its coordinates are [{longitude, latitude}], the second call reads
    their [coordinates], finds [undefined] and throws a TypeError on the
    first element. *)
Theorem deserialize_twice_with_point_throws h (s : store) (venue : nat) s1 r1 :
  deserialize h venue s = (s1, Ok r1) →
  truthy (get (get (deref s venue) "location") "coordinates") = true →
  ∃ s2, deserialize h r1 s1 = (s2, Throw TypeError).
Proof.
  intros Hrun Hc.
  destruct (deserialize_returns h s venue s1 r1 Hrun) as (m & Hm & Hsteps & Hr & Hs1).
  rewrite Hm in Hc.
  destruct (deserialize_steps_point h m _ Hsteps Hc) as (l' & lon & lat & Hloc & Hpt).
  destruct (deref s1 r1) as [| | | | | | |m1] eqn:Hview; try done.
  assert (s1 !! r1 = Some (Plain (VObj m1))) as Hcell.
  { rewrite Hs1, Hr. by rewrite list_lookup_middle. }
  destruct (truthy (get (VObj m1) "toObject")) eqn:Hto.
  - exists s1. unfold deserialize, snapshot. rewrite Hcell. cbn [member].
    by rewrite Hto.
  - rewrite (deserialize_plain h s1 r1 m1 Hcell Hto).
    destruct (reshape_bad_point m1 l') as [o' Hthrow].
    + simpl in *. by rewrite Hloc.
    + simpl. by rewrite Hpt.
    + simpl. by rewrite Hpt.
    + rewrite (deserialize_steps_reshape_throws h _ _ _ Hthrow). eauto.
Qed.

Lemma deserialize_twice_with_point_throws_witness :
  ∃ s2, deserialize example_host 1 (deserialize example_host 0 [Live venue_full]).1
        = (s2, Throw TypeError).
Proof.
  exact (deserialize_twice_with_point_throws example_host [Live venue_full] 0
           (deserialize example_host 0 [Live venue_full]).1 1 eq_refl eq_refl).
Defined.

(** X14.  [deserialize] is not idempotent on the identifier: a view given
    to it again comes back with [id] present and [undefined], because the
    first call removed the [_id] that the second one reads. *)
Theorem deserialize_twice_loses_identifier h (s : store) (venue : nat) s1 r1 s2 r2 :
  deserialize h venue s = (s1, Ok r1) →
  deserialize h r1 s1 = (s2, Ok r2) →
  own (deref s2 r2) "id" = Some VUndef.
Proof.
  intros Hfirst Hsecond.
  destruct (deserialize_hides h s venue s1 r1 Hfirst) as (Hid & _).
  destruct (deserialize_hides h s1 r1 s2 r2 Hsecond) as (_ & _ & _ & ->).
  destruct (deref s1 r1); try done. simpl in *. by rewrite Hid.
Qed.

Lemma deserialize_twice_loses_identifier_witness :
  own (deref (deserialize example_host 1
                (deserialize example_host 0 [Plain venue_identified]).1).1 2) "id"
  = Some VUndef.
Proof.
  exact (deserialize_twice_loses_identifier example_host [Plain venue_identified] 0
           (deserialize example_host 0 [Plain venue_identified]).1 1
           (deserialize example_host 1
              (deserialize example_host 0 [Plain venue_identified]).1).1 2
           eq_refl eq_refl).
Defined.

(** ** serialize: what is written before an error, and a second call *)

Lemma serialize_steps_identifier h m :
  if truthy (get (VObj m) "id")
  then own (serialize_steps h (VObj m)).1 "_id" = Some (get (VObj m) "id")
       ∧ own (serialize_steps h (VObj m)).1 "id" = None
  else own (serialize_steps h (VObj m)).1 "_id" = m !! "_id"
       ∧ own (serialize_steps h (VObj m)).1 "id" = m !! "id".
Proof.
  unfold serialize_steps. run_step.
  destruct (truthy (get (VObj m) "id")) eqn:Hid; run_step.
  all: frame_rest ["priceClass"; "location"; "queryText"].
  all: cbn [own]; norm_lookup; done.
Qed.

Lemma serialize_steps_lookup_throws h m e :
  truthy (get (VObj m) "location")
  && truthy (get (get (VObj m) "location") "country")
  && truthy (get (get (VObj m) "location") "city") = true →
  cityConfig_get h (get (get (VObj m) "location") "country")
    (get (get (VObj m) "location") "city") = Throw e →
  ∃ o', serialize_steps h (VObj m) = (o', Throw e).
Proof.
  intros Hlk Hconf. unfold serialize_steps. run_step.
  destruct (truthy (get (VObj m) "id")) eqn:Hid; run_step.
  all: rewrite Hlk, Hconf; run_step; eauto.
Qed.

Lemma serialize_steps_name_throws h m e :
  (truthy (get (VObj m) "location")
   && truthy (get (get (VObj m) "location") "country")
   && truthy (get (get (VObj m) "location") "city") = true →
   ∃ cityConf, cityConfig_get h (get (get (VObj m) "location") "country")
                 (get (get (VObj m) "location") "city") = Ok cityConf) →
  truthy (get (VObj m) "queryText") = false →
  unidecode h (get (VObj m) "name") = Throw e →
  ∃ o', serialize_steps h (VObj m) = (o', Throw e).
Proof.
  intros Hconf Hq Hname. unfold serialize_steps. run_step.
  destruct (truthy (get (VObj m) "id")) eqn:Hid; run_step.
  all: destruct (truthy (get (VObj m) "location")
                 && truthy (get (get (VObj m) "location") "country")
                 && truthy (get (get (VObj m) "location") "city")) eqn:Hlk;
    [destruct (Hconf eq_refl) as [[conf0|] Hcc]; rewrite Hcc|]; run_step.
  all: destruct (truthy (get (VObj m) "prices")) eqn:Hp; run_step.
  all: destruct (truthy (get (VObj m) "location")
                 && truthy (get (get (VObj m) "location") "coordinates")) eqn:Hco;
    [erewrite (bind_run (write_in _ _ _))
       by (apply write_in_object; norm_get; apply truthy_not_nullish;
           by apply andb_true_iff in Hco as [? _])|];
    run_step.
  all: rewrite Hq; run_step; rewrite Hname; run_step; eauto.
Qed.

Lemma serialize_steps_fields h m :
  let location := get (VObj m) "location" in
  let lookup := truthy location && truthy (get location "country")
                && truthy (get location "city") in
  (lookup = true →
   ∃ cityConf, cityConfig_get h (get location "country") (get location "city") = Ok cityConf) →
  (truthy (get (VObj m) "queryText") = false →
   ∃ ascii_name, unidecode h (get (VObj m) "name") = Ok ascii_name) →
  ∃ m', serialize_steps h (VObj m) = (VObj m', Ok tt)
    ∧ (truthy (get (VObj m) "queryText") = true →
       m' !! "queryText" = m !! "queryText")
    ∧ (truthy (get (VObj m) "queryText") = false →
       ∀ ascii_name, unidecode h (get (VObj m) "name") = Ok ascii_name →
         m' !! "queryText" = Some ascii_name)
    ∧ (lookup = false → m' !! "priceClass" = m !! "priceClass")
    ∧ (cityConfig_get h (get location "country") (get location "city") = Ok None →
       m' !! "priceClass" = m !! "priceClass").
Proof.
  intros location lookup Hconf Hname. subst location lookup.
  unfold serialize_steps, point. run_step.
  destruct (truthy (get (VObj m) "id")) eqn:Hid; run_step.
  all: destruct (truthy (get (VObj m) "location")
                 && truthy (get (get (VObj m) "location") "country")
                 && truthy (get (get (VObj m) "location") "city")) eqn:Hlk;
    [destruct (Hconf eq_refl) as [[conf0|] Hcc]; rewrite Hcc|]; run_step.
  all: destruct (truthy (get (VObj m) "prices")) eqn:Hp; run_step.
  all: destruct (truthy (get (VObj m) "location")
                 && truthy (get (get (VObj m) "location") "coordinates")) eqn:Hco;
    [erewrite (bind_run (write_in _ _ _))
       by (apply write_in_object; norm_get; apply truthy_not_nullish;
           by apply andb_true_iff in Hco as [? _])|];
    run_step.
  all: destruct (truthy (get (VObj m) "queryText")) eqn:Hq;
    [|destruct (Hname eq_refl) as [ascii_name Hq']; run_step; rewrite Hq']; run_step.
  all: eexists; split; [reflexivity|].
  all: repeat split; intros; try congruence; norm_lookup; try done.
  all: congruence.
Qed.

Lemma serialize_steps_returns h m o' :
  serialize_steps h (VObj m) = (o', Ok tt) →
  (truthy (get (VObj m) "location")
   && truthy (get (get (VObj m) "location") "country")
   && truthy (get (get (VObj m) "location") "city") = true →
   ∃ cityConf, cityConfig_get h (get (get (VObj m) "location") "country")
                 (get (get (VObj m) "location") "city") = Ok cityConf)
  ∧ (truthy (get (VObj m) "queryText") = false →
     ∃ ascii_name, unidecode h (get (VObj m) "name") = Ok ascii_name).
Proof.
  intros Hrun.
  assert (truthy (get (VObj m) "location")
          && truthy (get (get (VObj m) "location") "country")
          && truthy (get (get (VObj m) "location") "city") = true →
          ∃ cityConf, cityConfig_get h (get (get (VObj m) "location") "country")
                        (get (get (VObj m) "location") "city") = Ok cityConf) as Hconf.
  { intros Hlk.
    destruct (cityConfig_get h (get (get (VObj m) "location") "country")
                (get (get (VObj m) "location") "city")) as [cityConf|e] eqn:Hcc; [eauto|].
    destruct (serialize_steps_lookup_throws h m e Hlk Hcc) as [o2 Hthrow]. congruence. }
  split; [done|]. intros Hq.
  destruct (unidecode h (get (VObj m) "name")) as [ascii_name|e] eqn:Hname; [eauto|].
  destruct (serialize_steps_name_throws h m e Hconf Hq Hname) as [o2 Hthrow]. congruence.
Qed.

Lemma serialize_cell h (s : store) data c :
  s !! data = Some c →
  (serialize h data s).2
  = match (serialize_steps h (contents c)).2 with
    | Ok _ => Ok data
    | Throw e => Throw e
    end
  ∧ deref (serialize h data s).1 data = (serialize_steps h (contents c)).1.
Proof.
  intros Hc. split.
  - by rewrite serialize_run, (deref_lookup s data c Hc).
  - rewrite deref_serialize by (by eapply lookup_lt_Some).
    by rewrite (deref_lookup s data c Hc).
Qed.

(** X15.  [serialize] renames a truthy [id] to [_id] before anything else
    and never takes it back: whether the call returns or throws, the
    payload afterwards holds the identifier under [_id] and has no [id]. *)
Theorem serialize_renames_identifier_first h (s : store) (data : nat) c m :
  s !! data = Some c →
  contents c = VObj m →
  truthy (get (VObj m) "id") = true →
  own (deref (serialize h data s).1 data) "_id" = Some (get (VObj m) "id")
  ∧ own (deref (serialize h data s).1 data) "id" = None.
Proof.
  intros Hc Hm Hid.
  destruct (serialize_cell h s data c Hc) as [_ ->]. rewrite Hm.
  pose proof (serialize_steps_identifier h m) as Hfact. by rewrite Hid in Hfact.
Qed.

Lemma serialize_renames_identifier_first_witness :
  (serialize example_host 0 [Plain venue_from_client]).2 = Throw HostError
  ∧ own (deref (serialize example_host 0 [Plain venue_from_client]).1 0) "_id"
    = Some (VStr "v1")
  ∧ own (deref (serialize example_host 0 [Plain venue_from_client]).1 0) "id" = None.
Proof.
  split; [reflexivity|].
  exact (serialize_renames_identifier_first example_host [Plain venue_from_client] 0
           _ _ eq_refl eq_refl eq_refl).
Defined.

(** X16.  When [serialize] returns, a truthy [queryText] of the payload is
    kept as it was, whatever the name; a falsy one is replaced by the
    normalised name. *)
Theorem serialize_query_text h (s : store) (data : nat) s' r m :
  deref s data = VObj m →
  serialize h data s = (s', Ok r) →
  if truthy (get (VObj m) "queryText")
  then own (deref s' r) "queryText" = m !! "queryText"
  else ∃ ascii_name, unidecode h (get (VObj m) "name") = Ok ascii_name
         ∧ own (deref s' r) "queryText" = Some ascii_name.
Proof.
  intros Hm Hrun.
  destruct (s !! data) as [c|] eqn:Hc;
    [|unfold deref in Hm; by rewrite Hc in Hm].
  rewrite (deref_lookup s data c Hc) in Hm.
  destruct (serialize_cell h s data c Hc) as [Hres Hderef].
  rewrite Hrun, Hm in Hres, Hderef. cbn [fst snd] in Hres, Hderef.
  destruct (serialize_steps h (VObj m)) as [o' [[]|e]] eqn:Hsteps; [|done].
  injection Hres as ->. rewrite Hderef. cbn [fst].
  destruct (serialize_steps_returns h m o' Hsteps) as [Hconf Hname].
  destruct (serialize_steps_fields h m Hconf Hname) as (m' & Hrun' & Hkeep & Hnew & _).
  rewrite Hsteps in Hrun'. injection Hrun' as ->.
  destruct (truthy (get (VObj m) "queryText")) eqn:Hq.
  - by apply Hkeep.
  - destruct (Hname eq_refl) as [ascii_name Hascii].
    exists ascii_name. split; [done|]. by apply Hnew.
Qed.

Lemma serialize_query_text_witness :
  own (deref (serialize example_host 0 [Plain venue_with_query]).1 0) "queryText"
  = Some (VStr "koffie").
Proof.
  exact (serialize_query_text example_host [Plain venue_with_query] 0
           (serialize example_host 0 [Plain venue_with_query]).1 0 _ eq_refl eq_refl).
Defined.

(** X17.  [serialize] is not idempotent on the geo point: given a payload
    it has already returned, it reads [longitude] and [latitude] from the
    storage form, which has neither, and stores a point whose coordinates
    are both [undefined]. *)
Theorem serialize_twice_loses_coordinates h (s : store) (data : nat) m :
  s !! data = Some (Plain (VObj m)) →
  lookup_succeeds h (VObj m) = true →
  name_normalises h (VObj m) = true →
  truthy (get (get (VObj m) "location") "coordinates") = true →
  (serialize h data s).2 = Ok data
  ∧ (serialize h data (serialize h data s).1).2 = Ok data
  ∧ get (get (deref (serialize h data (serialize h data s).1).1 data) "location")
      "coordinates"
    = VObj {[ "type" := VStr "Point"; "coordinates" := VArr [VUndef; VUndef] ]}.
Proof.
  intros Hd Hlk Hname Hc.
  destruct (get (VObj m) "location") as [| | | | | | |l] eqn:Hloc; try done.
  pose proof (lookup_succeeds_spec _ _ Hlk) as Hconf.
  pose proof (name_normalises_spec _ _ Hname) as Hascii.
  rewrite Hloc in Hconf.
  destruct (serialize_steps_ok h m) as (m1 & Hrun1 & Henc1 & _);
    [by rewrite Hloc|done|].
  destruct (serialize_steps_fields h m) as (m1' & Hrun1' & Hkeep & Hnew & _);
    [by rewrite Hloc|done|].
  rewrite Hrun1 in Hrun1'. injection Hrun1' as <-.
  rewrite Hloc in Henc1. specialize (Henc1 Hc). cbn [set] in Henc1.
  pose proof (touches_object _ _ _ _ _ (serialize_steps_touches h) Hrun1) as Hframe.
  destruct (serialize_result h s data m m1 Hd Hrun1) as (Hok1 & _ & Hcell1 & _).
  split; [done|].
  destruct (serialize_steps_ok h m1) as (m2 & Hrun2 & Henc2 & _).
  { rewrite Henc1. norm_get. exact Hconf. }
  { intros Hq1. assert (get (VObj m1) "name" = get (VObj m) "name") as ->.
    { simpl. rewrite Hframe; [done|key_solver]. }
    destruct (truthy (get (VObj m) "queryText")) eqn:Hq.
    - simpl in Hq1, Hq. rewrite (Hkeep eq_refl) in Hq1. congruence.
    - by apply Hascii. }
  rewrite Henc1 in Henc2.
  assert (get (VObj (<["coordinates" := point (get (VObj l) "coordinates")]> l))
            "coordinates" = point (get (VObj l) "coordinates")) as Hget
    by (by norm_get).
  rewrite Hget in Henc2. specialize (Henc2 eq_refl).
  destruct (serialize_result h _ data m1 m2 Hcell1 Hrun2) as (Hok2 & Hderef2 & _).
  split; [done|]. rewrite Hderef2, Henc2. cbn [set]. by norm_get.
Qed.

Lemma serialize_twice_loses_coordinates_witness :
  get (get (deref (serialize example_host 0
                     (serialize example_host 0 [Plain venue_with_point]).1).1 0)
         "location") "coordinates"
  = VObj {[ "type" := VStr "Point"; "coordinates" := VArr [VUndef; VUndef] ]}.
Proof.
  exact (proj2 (proj2 (serialize_twice_loses_coordinates example_host
                         [Plain venue_with_point] 0 _ eq_refl eq_refl eq_refl eq_refl))).
Defined.

(** X18.  Prices alone give no price class: when the location of the
    payload lacks a truthy country or city, or the lookup returns
    [undefined], a [serialize] that returns leaves [priceClass] as the
    payload had it, a value supplied by the caller included. *)
Theorem serialize_price_class_needs_city h (s : store) (data : nat) s' r m :
  deref s data = VObj m →
  serialize h data s = (s', Ok r) →
  truthy (get (VObj m) "location")
  && truthy (get (get (VObj m) "location") "country")
  && truthy (get (get (VObj m) "location") "city") = false
  ∨ cityConfig_get h (get (get (VObj m) "location") "country")
      (get (get (VObj m) "location") "city") = Ok None →
  own (deref s' r) "priceClass" = m !! "priceClass".
Proof.
  intros Hm Hrun Hcity.
  destruct (s !! data) as [c|] eqn:Hc;
    [|unfold deref in Hm; by rewrite Hc in Hm].
  rewrite (deref_lookup s data c Hc) in Hm.
  destruct (serialize_cell h s data c Hc) as [Hres Hderef].
  rewrite Hrun, Hm in Hres, Hderef. cbn [fst snd] in Hres, Hderef.
  destruct (serialize_steps h (VObj m)) as [o' [[]|e]] eqn:Hsteps; [|done].
  injection Hres as ->. rewrite Hderef. cbn [fst].
  destruct (serialize_steps_returns h m o' Hsteps) as [Hconf Hname].
  destruct (serialize_steps_fields h m Hconf Hname)
    as (m' & Hrun' & _ & _ & Hnone & Hundef).
  rewrite Hsteps in Hrun'. injection Hrun' as ->.
  destruct Hcity as [Hlk|Hcc]; [by apply Hnone|by apply Hundef].
Qed.

Lemma serialize_price_class_needs_city_witness :
  own (deref (serialize example_host 0 [Plain venue_without_city]).1 0) "priceClass"
  = Some (VNum 9).
Proof.
  refine (serialize_price_class_needs_city example_host [Plain venue_without_city] 0
            (serialize example_host 0 [Plain venue_without_city]).1 0 _
            eq_refl eq_refl _).
  left. reflexivity.
Defined.

(** X19.  A payload with a truthy country and city is looked up whether it
    has prices or not, and an error of the lookup is the error of
    [serialize]. *)
Theorem serialize_lookup_error_propagates h (s : store) (data : nat) m e :
  deref s data = VObj m →
  truthy (get (VObj m) "location")
  && truthy (get (get (VObj m) "location") "country")
  && truthy (get (get (VObj m) "location") "city") = true →
  cityConfig_get h (get (get (VObj m) "location") "country")
    (get (get (VObj m) "location") "city") = Throw e →
  (serialize h data s).2 = Throw e.
Proof.
  intros Hm Hlk Hcc. rewrite serialize_run, Hm. cbn [snd].
  destruct (serialize_steps_lookup_throws h m e Hlk Hcc) as [o' ->]. done.
Qed.

Lemma serialize_lookup_error_propagates_witness :
  (serialize example_host 0 [Plain venue_utrecht]).2 = Throw HostError.
Proof.
  exact (serialize_lookup_error_propagates example_host [Plain venue_utrecht] 0
           _ HostError eq_refl eq_refl eq_refl).
Defined.

(** ** The listing route *)

Lemma deserialize_without_location h (s : store) venue :
  nullish (get (deref s venue) "location") = true →
  ∃ s' e, deserialize h venue s = (s', Throw e).
Proof.
  intros Hloc. unfold deserialize.
  destruct (snapshot s venue) as [copy|e] eqn:Hsnap; [|eauto].
  assert (copy = deref s venue) as ->.
  { unfold snapshot, deref in *. destruct (s !! venue) as [[o|o]|]; [| |done].
    - destruct (member o "toObject") as [toObject|]; [|done].
      destruct (truthy toObject); [done|]. by injection Hsnap as <-.
    - by injection Hsnap as <-. }
  destruct (deserialize_steps_without_location h _ Hloc) as [o' ->]. eauto.
Qed.

Lemma deref_app (s s' : store) r : (r < length s)%nat → deref (s ++ s') r = deref s r.
Proof. intros Hr. unfold deref. by rewrite lookup_app_l. Qed.

Lemma deserialize_all_returns h results : ∀ (s s' : store) views,
  deserialize_all h results s = (s', Ok views) →
  views = seq (length s) (length results)
  ∧ (∃ new, s' = s ++ new ∧ length new = length results)
  ∧ ∀ i venue, results !! i = Some venue → (venue < length s)%nat →
      own (deref s' (length s + i)) "id" = Some (get (deref s venue) "_id").
Proof.
  induction results as [|venue rest IH]; intros s s' views Hrun; simpl in Hrun.
  - injection Hrun as <- <-. split; [done|]. split; [|done].
    exists []. by rewrite app_nil_r.
  - destruct (deserialize h venue s) as [s1 [view|e]] eqn:Hfirst; [|done].
    destruct (deserialize_all h rest s1) as [s2 [views'|e]] eqn:Hrest; [|done].
    injection Hrun as <- <-.
    destruct (deserialize_returns h s venue s1 view Hfirst) as (m & Hm & Hsteps & -> & Hs1).
    destruct (deserialize_hides h s venue s1 (length s) Hfirst) as (_ & _ & _ & Hid).
    destruct (IH s1 s2 views' Hrest) as (-> & (new & -> & Hnew) & Hviews).
    assert (length s1 = S (length s)) as Hlen.
    { rewrite Hs1, length_app. simpl. lia. }
    rewrite Hlen. split; [done|]. split.
    { exists (Plain (deref s1 (length s)) :: new). split.
      - rewrite Hs1 at 1. by rewrite <- app_assoc.
      - simpl. by rewrite Hnew. }
    intros [|i] v Hv Hlt; simpl in Hv.
    + injection Hv as ->. rewrite Nat.add_0_r.
      rewrite deref_app by lia. done.
    + rewrite Hlen in Hviews.
      replace (length s + S i)%nat with (S (length s) + i)%nat by lia.
      rewrite (Hviews i v Hv) by lia.
      rewrite Hs1. by rewrite deref_app.
Qed.

(** X20.  A listing that returns has made one new object per document, in
    the order of the documents, and has left the store it was given as it
    was: the views are the references that follow the last one in use, and
    the view of each document holds the document's [_id] as [id]. *)
Theorem listing_allocates_views h (s s' : store) results views :
  deserialize_all h results s = (s', Ok views) →
  views = seq (length s) (length results)
  ∧ take (length s) s' = s
  ∧ length s' = (length s + length results)%nat
  ∧ ∀ i venue, results !! i = Some venue → (venue < length s)%nat →
      own (deref s' (length s + i)) "id" = Some (get (deref s venue) "_id").
Proof.
  intros Hrun.
  destruct (deserialize_all_returns h results s s' views Hrun)
    as (Hviews & (new & -> & Hnew) & Hid).
  split; [done|]. split; [by rewrite take_app_length|].
  split; [|done]. rewrite length_app. lia.
Qed.

Lemma listing_allocates_views_witness :
  (deserialize_all example_host [0; 1; 0]%nat [Live venue_full; Plain venue_identified]).2
  = Ok [2; 3; 4]%nat
  ∧ own (deref (deserialize_all example_host [0; 1; 0]%nat
                  [Live venue_full; Plain venue_identified]).1 4) "id"
    = Some (VStr "v1").
Proof.
  split; [reflexivity|].
  exact (proj2 (proj2 (proj2
           (listing_allocates_views example_host
              [Live venue_full; Plain venue_identified]
              (deserialize_all example_host [0; 1; 0]%nat
                 [Live venue_full; Plain venue_identified]).1
              [0; 1; 0]%nat [2; 3; 4]%nat eq_refl)))
           2%nat 0%nat eq_refl ltac:(simpl; lia)).
Defined.

(** X21.  One document without a location makes the whole listing throw:
    no list of views is returned, whatever the other documents are. *)
Theorem listing_fails_on_document_without_location h (s : store) results venue :
  venue ∈ results →
  (venue < length s)%nat →
  nullish (get (deref s venue) "location") = true →
  ∃ s' e, deserialize_all h results s = (s', Throw e).
Proof.
  revert s. induction results as [|v rest IH]; intros s Hin Hlt Hloc.
  - by apply elem_of_nil in Hin.
  - simpl. destruct (deserialize h v s) as [s1 [view|e]] eqn:Hfirst; [|eauto].
    apply elem_of_cons in Hin as [->|Hin].
    { destruct (deserialize_without_location h s v Hloc) as (s' & e & Hthrow).
      congruence. }
    destruct (deserialize_returns h s v s1 view Hfirst) as (_ & _ & _ & _ & Hs1).
    destruct (IH s1 Hin) as (s2 & e & ->); [| |eauto].
    + rewrite Hs1, length_app. lia.
    + rewrite Hs1. by rewrite deref_app.
Qed.

Lemma listing_fails_on_document_without_location_witness :
  ∃ s' e, deserialize_all example_host [0; 1]%nat [Live venue_full; Live venue_name_only]
          = (s', Throw e).
Proof.
  refine (listing_fails_on_document_without_location example_host
            [Live venue_full; Live venue_name_only] [0; 1]%nat 1%nat _ _ eq_refl).
  - apply elem_of_cons. right. apply elem_of_cons. by left.
  - simpl. lia.
Defined.

(** ** The dates of a Facebook event *)

Lemma lodash_find_none {A} (l : list A) p :
  lodash_find l p = None ↔ ∀ x, x ∈ l → p x = false.
Proof.
  unfold lodash_find. induction l as [|y l IH]; simpl.
  - split; [|done]. intros _ x Hx. by apply elem_of_nil in Hx.
  - destruct (p y) eqn:Hy.
    + split; [done|]. intros Hall. rewrite Hall in Hy; [done|]. by left.
    + rewrite IH. split.
      * intros Hall x [->|Hx]%elem_of_cons; auto.
      * intros Hall x Hx. apply Hall. by right.
Qed.

Lemma found_lodash_find {A} (l : list A) p :
  found (lodash_find l p) = true ↔ ∃ x, x ∈ l ∧ p x = true.
Proof.
  destruct (lodash_find l p) as [x|] eqn:Hf; simpl.
  - split; [intros _|done]. unfold lodash_find in Hf.
    apply List.find_some in Hf as [Hin Hp]. exists x.
    split; [by apply list_elem_of_In|done].
  - split; [done|]. intros (x & Hx & Hp).
    apply lodash_find_none with (x := x) in Hf; [congruence|done].
Qed.

Lemma elem_of_List_filter {A} (p : A → bool) l x :
  x ∈ List.filter p l ↔ x ∈ l ∧ p x = true.
Proof. rewrite !list_elem_of_In. apply List.filter_In. Qed.

Lemma insert_sorted_Permutation {A} (c : A → A → option Z) x l :
  insert_sorted c x l ≡ₚ x :: l.
Proof.
  induction l as [|y l IH]; simpl; [done|].
  destruct (c x y) as [v|]; [|done].
  destruct (0 <? v)%Z; [|done]. rewrite IH. apply Permutation_swap.
Qed.

Lemma array_sort_Permutation {A} (c : A → A → option Z) l : array_sort c l ≡ₚ l.
Proof.
  unfold array_sort. induction l as [|x l IH]; simpl; [done|].
  by rewrite insert_sorted_Permutation, IH.
Qed.

(** X22.  The dates stored for an event that exists are the dates of the
    update together with those existing dates that no date of the update
    equals in time: every date of the update is kept, and an existing date
    is dropped exactly when the update has a date at the same time. *)
Theorem merged_dates_members time existing dates d :
  d ∈ (facebook_event_dates time (Some existing) dates).1
  ↔ d ∈ dates ∨ (d ∈ existing ∧ ∀ u, u ∈ dates → datesEqual time u d = false).
Proof.
  cbn [facebook_event_dates fst].
  rewrite array_sort_Permutation, elem_of_app, elem_of_List_filter.
  rewrite negb_true_iff.
  assert (found (lodash_find dates (fun date => datesEqual time date d)) = false
          ↔ ∀ u, u ∈ dates → datesEqual time u d = false) as ->; [|tauto].
  rewrite <- lodash_find_none.
  by destruct (lodash_find dates _).
Qed.

Section Dates.
Context (time : value → option Z).

Local Abbreviation valid := (fun d => valid_date time d = true).
Local Abbreviation at_time k := (fun d => (date_time time d =? k)%Z).
Local Abbreviation ascending := (fun a b => (date_time time a <= date_time time b)%Z).

Lemma valid_date_time d : valid d → time (get (VObj d) "from") = Some (date_time time d).
Proof.
  unfold valid_date, date_time. by destruct (time (get (VObj d) "from")).
Qed.

Lemma compare_dates_valid a b :
  valid a → valid b →
  compare_dates time a b = Some (date_time time a - date_time time b)%Z.
Proof.
  intros Ha Hb. unfold compare_dates.
  by rewrite (valid_date_time a Ha), (valid_date_time b Hb).
Qed.

Lemma datesEqual_valid a b :
  valid a → valid b →
  datesEqual time a b = (date_time time a =? date_time time b)%Z.
Proof.
  intros Ha Hb. unfold datesEqual.
  by rewrite (valid_date_time a Ha), (valid_date_time b Hb).
Qed.

Lemma datesEqual_invalid_l a b : valid_date time a = false → datesEqual time a b = false.
Proof.
  unfold valid_date, datesEqual. by destruct (time (get (VObj a) "from")).
Qed.


Lemma insert_sorted_at_time x l k :
  valid x → Forall valid l →
  List.filter (at_time k) (insert_sorted (compare_dates time) x l)
  = List.filter (at_time k) (x :: l).
Proof.
  intros Hx Hl. induction Hl as [|y l Hy Hl IH]; [done|].
  cbn [insert_sorted]. rewrite (compare_dates_valid x y Hx Hy).
  destruct (0 <? date_time time x - date_time time y)%Z eqn:Hlt; [|done].
  apply Z.ltb_lt in Hlt. cbn [List.filter] in *. rewrite IH.
  destruct (date_time time y =? k)%Z eqn:Hyk, (date_time time x =? k)%Z eqn:Hxk;
    try done.
  apply Z.eqb_eq in Hyk, Hxk. lia.
Qed.

Lemma insert_sorted_ascending x l :
  valid x → Forall valid l →
  StronglySorted ascending l →
  StronglySorted ascending (insert_sorted (compare_dates time) x l).
Proof.
  intros Hx Hl Hs. induction Hl as [|y l Hy Hl IH].
  - repeat constructor.
  - apply StronglySorted_inv in Hs as [Hs Hhead].
    cbn [insert_sorted]. rewrite (compare_dates_valid x y Hx Hy).
    destruct (0 <? date_time time x - date_time time y)%Z eqn:Hlt.
    + apply Z.ltb_lt in Hlt. constructor; [by apply IH|].
      rewrite insert_sorted_Permutation. constructor; [lia|done].
    + apply Z.ltb_ge in Hlt. constructor; [by constructor|].
      constructor; [lia|]. eapply Forall_impl; [exact Hhead|].
      intros z Hz. simpl in *. lia.
Qed.

Lemma array_sort_valid l :
  Forall valid l → Forall valid (array_sort (compare_dates time) l).
Proof. intros Hl. by rewrite array_sort_Permutation. Qed.

Lemma array_sort_ascending l :
  Forall valid l → StronglySorted ascending (array_sort (compare_dates time) l).
Proof.
  intros Hl. induction Hl as [|x l Hx Hl IH]; [constructor|].
  cbn [array_sort foldr]. apply insert_sorted_ascending; [done| |done].
  by apply array_sort_valid.
Qed.

Lemma array_sort_at_time l k :
  Forall valid l →
  List.filter (at_time k) (array_sort (compare_dates time) l)
  = List.filter (at_time k) l.
Proof.
  intros Hl. induction Hl as [|x l Hx Hl IH]; [done|].
  cbn [array_sort foldr].
  rewrite insert_sorted_at_time by (done || by apply array_sort_valid).
  cbn [List.filter]. fold (array_sort (compare_dates time) l). by rewrite IH.
Qed.

(** Two ascending lists that hold the same dates at every time, in the
    same order, are one list. *)
Lemma ascending_unique l1 : ∀ l2,
  StronglySorted ascending l1 →
  StronglySorted ascending l2 →
  (∀ k, List.filter (at_time k) l1 = List.filter (at_time k) l2) →
  l1 = l2.
Proof.
  induction l1 as [|a r1 IH]; intros [|b r2] Hs1 Hs2 Hsame; [done| | |].
  - specialize (Hsame (date_time time b)). cbn [List.filter] in Hsame.
    by rewrite Z.eqb_refl in Hsame.
  - specialize (Hsame (date_time time a)). cbn [List.filter] in Hsame.
    by rewrite Z.eqb_refl in Hsame.
  - apply StronglySorted_inv in Hs1 as [Hs1 Ha].
    apply StronglySorted_inv in Hs2 as [Hs2 Hb].
    assert (date_time time b ≤ date_time time a)%Z as Hba.
    { pose proof (Hsame (date_time time a)) as Hk. cbn [List.filter] in Hk.
      rewrite Z.eqb_refl in Hk.
      assert (a ∈ b :: r2) as Hin.
      { assert (a ∈ List.filter (at_time (date_time time a)) (b :: r2)) as Hin.
        { cbn [List.filter]. rewrite <- Hk. by left. }
        apply list_elem_of_In, List.filter_In in Hin as [Hin _].
        by apply list_elem_of_In. }
      apply elem_of_cons in Hin as [->|Hin]; [lia|].
      rewrite Forall_forall in Hb. by apply Hb. }
    assert (date_time time a ≤ date_time time b)%Z as Hab.
    { pose proof (Hsame (date_time time b)) as Hk. cbn [List.filter] in Hk.
      rewrite Z.eqb_refl in Hk.
      assert (b ∈ a :: r1) as Hin.
      { assert (b ∈ List.filter (at_time (date_time time b)) (a :: r1)) as Hin.
        { cbn [List.filter]. rewrite Hk. by left. }
        apply list_elem_of_In, List.filter_In in Hin as [Hin _].
        by apply list_elem_of_In. }
      apply elem_of_cons in Hin as [->|Hin]; [lia|].
      rewrite Forall_forall in Ha. by apply Ha. }
    assert (a = b) as ->.
    { specialize (Hsame (date_time time a)). cbn [List.filter] in Hsame.
      rewrite Z.eqb_refl in Hsame.
      replace (date_time time b =? date_time time a)%Z with true in Hsame
        by (symmetry; apply Z.eqb_eq; lia).
      congruence. }
    f_equal. apply IH; [done..|]. intros k.
    specialize (Hsame k). cbn [List.filter] in Hsame.
    destruct (date_time time b =? k)%Z; congruence.
Qed.

Lemma List_filter_comm {A} (p q : A → bool) l :
  List.filter p (List.filter q l) = List.filter q (List.filter p l).
Proof.
  induction l as [|x l IH]; [done|]. cbn [List.filter].
  destruct (q x) eqn:Hq, (p x) eqn:Hp; cbn [List.filter];
    rewrite ?Hq, ?Hp, IH; done.
Qed.

Lemma List_filter_idemp {A} (p : A → bool) l :
  List.filter p (List.filter p l) = List.filter p l.
Proof.
  induction l as [|x l IH]; [done|]. cbn [List.filter].
  destruct (p x) eqn:Hp; cbn [List.filter]; rewrite ?Hp, IH; done.
Qed.

Lemma List_filter_none {A} (p : A → bool) l :
  (∀ x, x ∈ l → p x = false) → List.filter p l = [].
Proof.
  induction l as [|x l IH]; [done|]. intros Hall. cbn [List.filter].
  rewrite (Hall x) by (by left). apply IH. intros y Hy. apply Hall. by right.
Qed.


Lemma update_date_found dates u :
  u ∈ dates → valid u →
  found (lodash_find dates (fun date => datesEqual time date u)) = true.
Proof.
  intros Hin Hu. apply found_lodash_find. exists u. split; [done|].
  rewrite datesEqual_valid by done. apply Z.eqb_refl.
Qed.

End Dates.



(** X24.  Sending the same update again changes nothing: when every date
    involved is valid, the merge of the update with the dates stored by a
    first merge gives those same dates, in the same order, and reports no
    change. *)
Theorem merged_dates_replay time existing dates :
  (∀ d, d ∈ existing → valid_date time d = true) →
  (∀ d, d ∈ dates → valid_date time d = true) →
  facebook_event_dates time
    (Some (facebook_event_dates time (Some existing) dates).1) dates
  = ((facebook_event_dates time (Some existing) dates).1, false).
Proof.
  intros He Hd. cbn [facebook_event_dates fst].
  set (p := fun existingDate =>
         negb (found (lodash_find dates (fun date => datesEqual time date existingDate)))).
  set (kept := List.filter p existing).
  set (merged := array_sort (compare_dates time) (kept ++ dates)).
  assert (Forall (fun d => valid_date time d = true) (kept ++ dates)) as Hvalid.
  { apply Forall_app. split; apply Forall_forall.
    - intros d [Hin _]%elem_of_List_filter. by apply He.
    - done. }
  assert (Forall (fun d => valid_date time d = true) merged) as Hmerged
    by (by apply array_sort_valid).
  assert (List.filter p dates = []) as Hnone.
  { apply List_filter_none. intros u Hu. unfold p.
    by rewrite (update_date_found time dates u Hu (Hd u Hu)). }
  f_equal.
  - assert (Forall (fun d => valid_date time d = true) (List.filter p merged ++ dates))
      as Hvalid'.
    { apply Forall_app. split; [|by apply Forall_forall].
      apply Forall_forall. intros d [Hin _]%elem_of_List_filter.
      rewrite Forall_forall in Hmerged. by apply Hmerged. }
    apply (ascending_unique time); [by apply array_sort_ascending..|].
    intros k. rewrite !array_sort_at_time by done.
    rewrite !List.filter_app. f_equal.
    rewrite (List_filter_comm _ p merged). unfold merged.
    rewrite array_sort_at_time by done.
    rewrite !List.filter_app.
    rewrite (List_filter_comm p _ kept), (List_filter_comm p _ dates).
    assert (List.filter p kept = kept) as -> by apply List_filter_idemp.
    rewrite Hnone. cbn [List.filter]. by rewrite app_nil_r.
  - assert (lodash_find dates
              (fun date => negb (found (lodash_find merged
                 (fun existingDate => datesEqual time existingDate date)))) = None)
      as ->; [|done].
    apply lodash_find_none. intros u Hu. apply negb_false_iff.
    apply found_lodash_find. exists u. split.
    + unfold merged. rewrite array_sort_Permutation. apply elem_of_app. by right.
    + rewrite datesEqual_valid by by apply Hd. apply Z.eqb_refl.
Qed.

Lemma merged_dates_replay_witness :
  facebook_event_dates example_time
    (Some [date_at 1 "new"; date_at 2 "kept"; date_at 3 "new"])
    [date_at 3 "new"; date_at 1 "new"]
  = ([date_at 1 "new"; date_at 2 "kept"; date_at 3 "new"], false).
Proof.
  refine (merged_dates_replay example_time
            [date_at 3 "old"; date_at 2 "kept"] [date_at 3 "new"; date_at 1 "new"] _ _).
  - intros d Hd. repeat (apply elem_of_cons in Hd as [->|Hd]; [reflexivity|]).
    by apply elem_of_nil in Hd.
  - intros d Hd. repeat (apply elem_of_cons in Hd as [->|Hd]; [reflexivity|]).
    by apply elem_of_nil in Hd.
Defined.


